(** * The number-guessing agent of [project1/main.py]

    A shallow embedding of the guessing game: the evaluator
    [evaluate_your_try], the game state [GameState] and the methods of
    [OpenAIGuessGameAgent] ([init], [play], [call_llm],
    [process_tool_response], [process_message]).

    The agent object, standard output and the requests sent to the model
    provider are threaded through a state-and-exception monad.  The two
    external collaborators of the program are parameters of the
    development: the model provider ([client]) and Python's JSON parser
    ([json_loads]).  The process-wide secret [app_random_number] is a
    parameter too, since it is drawn at random when the module is loaded. *)

From Stdlib Require Import ZArith QArith List String Ascii Bool Lia.
From Stdlib Require Import DecimalString DecimalPos DecimalZ.
Import ListNotations.

#[local] Open Scope string_scope.
#[local] Open Scope Z_scope.
#[local] Set Warnings "-register-all".

(** ** Python values *)

(** A Python [float]: every finite double is a rational, and Python
    compares a float with an int exactly. *)
Inductive pyfloat : Type :=
| FNaN
| FInf (negative : bool)
| FFinite (q : Q).

(** The values [json.loads] can return, which are also the values the
    tool schema [g_tools] is built from. *)
Inductive pyvalue : Type :=
| PNone
| PBool (b : bool)
| PInt (n : Z)
| PFloat (x : pyfloat)
| PStr (s : string)
| PList (l : list pyvalue)
| PDict (items : list (string * pyvalue)).

(** Exceptions, all of them instances of Python's [Exception]. *)
Inductive exn : Type :=
| Exception (msg : string)
| TypeError (msg : string)
| KeyError (key : string)
| OtherException (class msg : string).

(** [float > int] and [float < int]: false on NaN, exact otherwise. *)
Definition float_gt_int (x : pyfloat) (n : Z) : bool :=
  match x with
  | FNaN => false
  | FInf negative => negb negative
  | FFinite q => negb (Qle_bool q (inject_Z n))
  end.

Definition float_lt_int (x : pyfloat) (n : Z) : bool :=
  match x with
  | FNaN => false
  | FInf negative => negative
  | FFinite q => negb (Qle_bool (inject_Z n) q)
  end.

Definition int_of_bool (b : bool) : Z := if b then 1 else 0.

(** [v > n] for an int [n]: numbers compare, anything else raises. *)
Definition py_gt (v : pyvalue) (n : Z) : exn + bool :=
  match v with
  | PInt g => inr (n <? g)
  | PBool b => inr (n <? int_of_bool b)
  | PFloat x => inr (float_gt_int x n)
  | _ => inl (TypeError "'>' not supported between these instances")
  end.

(** [v < n] for an int [n]. *)
Definition py_lt (v : pyvalue) (n : Z) : exn + bool :=
  match v with
  | PInt g => inr (g <? n)
  | PBool b => inr (int_of_bool b <? n)
  | PFloat x => inr (float_lt_int x n)
  | _ => inl (TypeError "'<' not supported between these instances")
  end.

(** [str(n)] for an int. *)
Definition str_int (n : Z) : string := NilZero.string_of_int (Z.to_int n).

(** ** [json.dumps] on a string *)

Module Json.

Definition dquote : ascii := "034"%char.
Definition backslash : ascii := "092"%char.

Definition hex_digit (n : nat) : ascii :=
  nth n (list_ascii_of_string "0123456789abcdef") "0"%char.

(** One character of a JSON string literal, as [json.dumps] writes it
    with its default [ensure_ascii=True]: the quote, the backslash and
    the characters outside the printable ASCII range are escaped.  The
    program only serializes ASCII text; a byte above 127 is copied
    unchanged here. *)
Definition escape (c : ascii) : string :=
  let n := nat_of_ascii c in
  if (n =? 34)%nat then String backslash (String dquote EmptyString)
  else if (n =? 92)%nat then String backslash (String backslash EmptyString)
  else if (n =? 10)%nat then String backslash "n"
  else if (n =? 13)%nat then String backslash "r"
  else if (n =? 9)%nat then String backslash "t"
  else if (n =? 8)%nat then String backslash "b"
  else if (n =? 12)%nat then String backslash "f"
  else if ((n <? 32) || (n =? 127))%nat then
    String backslash
      (String "u" (String "0" (String "0"
         (String (hex_digit (n / 16)) (String (hex_digit (n mod 16)) EmptyString)))))
  else String c EmptyString.

Fixpoint escape_all (s : string) : string :=
  match s with
  | EmptyString => EmptyString
  | String c rest => escape c ++ escape_all rest
  end.

(** [json.dumps(s)] for a [str]: the escaped text between double quotes. *)
Definition dumps (s : string) : string :=
  String dquote (escape_all s ++ String dquote EmptyString).

End Json.

(** ** Module-level definitions of [main.py] *)

(** The tool schema handed to the model. *)
Definition g_tools : list pyvalue :=
  [ PDict
      [ ("type", PStr "function");
        ("function",
          PDict
            [ ("name", PStr "evaluate_your_try");
              ("description",
                PStr "Use this function to evaluate your guessed number. Returns a message indicating whether your guess was too high, too low, or correct.");
              ("parameters",
                PDict
                  [ ("type", PStr "object");
                    ("properties",
                      PDict
                        [ ("guess",
                            PDict
                              [ ("type", PStr "number");
                                ("description", PStr "Your guess number.") ]) ]);
                    ("required", PList [PStr "guess"]) ]) ]) ] ].

Definition TOO_HIGH_MESSAGE : string := "Too high!".
Definition TOO_LOW_MESSAGE : string := "Too low!".
Definition THAT_IS_RIGHT_MESSAGE : string := "That's right!".

Inductive GameState : Type :=
| INIT
| PLAYING
| END.

Definition GameState_eqb (a b : GameState) : bool :=
  match a, b with
  | INIT, INIT | PLAYING, PLAYING | END, END => true
  | _, _ => false
  end.

(** ** What the model provider returns and what the transcript holds *)

(** [tool_call.function] of a response. *)
Record function_call : Type :=
  { name : string;
    arguments : string }.

(** One entry of [response_message.tool_calls]. *)
Record tool_call : Type :=
  { id : string;
    function : function_call }.

(** [response.choices[0].message]. *)
Record response_message : Type :=
  { content : option string;
    tool_calls : option (list tool_call) }.

(** The [{"id", "type", "function": {"name", "arguments"}}] dict recorded in
    an assistant turn. *)
Record tool_call_entry : Type :=
  { entry_id : string;
    entry_type : string;
    entry_name : string;
    entry_arguments : string }.

(** The dicts appended to [self.messages]. *)
Inductive message : Type :=
| Turn (role text : string)
| AssistantTurn (text : option string) (calls : list tool_call_entry)
| ToolTurn (tool_call_id tool_name text : string).

(** What the program does to the outside world, in order: [Said line] is
    [print(line)], [SaidGuess guess] is [print(f"LLM: {guess}")],
    [SaidError e] is [print(f"Error: {e}")], and [Create] is a request to
    the model provider. *)
Inductive event : Type :=
| Said (line : string)
| SaidGuess (guess : pyvalue)
| SaidError (e : exn)
| Create (model : string) (messages : list message) (tools : list pyvalue).

(** The agent object ([self]) together with the trace of events. *)
Record world : Type :=
  { model : string;
    max_tries : Z;
    state : GameState;
    messages : list message;
    trace : list event }.

Definition with_state (s : GameState) (w : world) : world :=
  {| model := model w; max_tries := max_tries w; state := s;
     messages := messages w; trace := trace w |}.

Definition with_messages (ms : list message) (w : world) : world :=
  {| model := model w; max_tries := max_tries w; state := state w;
     messages := ms; trace := trace w |}.

Definition with_trace (t : list event) (w : world) : world :=
  {| model := model w; max_tries := max_tries w; state := state w;
     messages := messages w; trace := t |}.

(** ** The monad of the program: state, exceptions, and fuel for the loop *)

Inductive result (A : Type) : Type :=
| Normal (a : A)
| Raised (e : exn)
| OutOfFuel.

Arguments Normal {A} a.
Arguments Raised {A} e.
Arguments OutOfFuel {A}.

Definition M (A : Type) : Type := world -> result A * world.

Definition ret {A} (a : A) : M A := fun w => (Normal a, w).

Definition bind {A B} (c : M A) (k : A -> M B) : M B :=
  fun w =>
    match c w with
    | (Normal a, w') => k a w'
    | (Raised e, w') => (Raised e, w')
    | (OutOfFuel, w') => (OutOfFuel, w')
    end.

Definition raise {A} (e : exn) : M A := fun w => (Raised e, w).

(** [try: body / except Exception as e: handler e]. *)
Definition try_except {A} (body : M A) (handler : exn -> M A) : M A :=
  fun w =>
    match body w with
    | (Raised e, w') => handler e w'
    | other => other
    end.

Definition lift {A} (r : exn + A) : M A :=
  match r with
  | inl e => raise e
  | inr a => ret a
  end.

Notation "x <- c ;; k" := (bind c (fun x => k))
  (at level 61, c at next level, right associativity).
Notation "c ;; k" := (bind c (fun _ => k))
  (at level 61, right associativity).

Definition emit (e : event) : M unit :=
  fun w => (Normal tt, with_trace (trace w ++ [e]) w).

(** [print(line)].  Writing to standard output never fails here; the
    runs on which this is also true of Python are those that satisfy
    [prints_succeed], defined below. *)
Definition print (line : string) : M unit := emit (Said line).

Definition get_state : M GameState := fun w => (Normal (state w), w).

Definition set_state (s : GameState) : M unit :=
  fun w => (Normal tt, with_state s w).

Definition append_message (m : message) : M unit :=
  fun w => (Normal tt, with_messages (messages w ++ [m]) w).

(** [for x in xs: body x]. *)
Fixpoint for_each {A} (xs : list A) (body : A -> M unit) : M unit :=
  match xs with
  | [] => ret tt
  | x :: rest => body x ;; for_each rest body
  end.

(** The number of requests sent to the model so far. *)
Fixpoint requests (t : list event) : nat :=
  match t with
  | [] => 0
  | Create _ _ _ :: rest => S (requests rest)
  | _ :: rest => requests rest
  end.

(** The number of requests sent with a non-empty tool list. *)
Fixpoint tool_rounds (t : list event) : nat :=
  match t with
  | [] => 0
  | Create _ _ (_ :: _) :: rest => S (tool_rounds rest)
  | _ :: rest => tool_rounds rest
  end.

(** The functions of [main.py], over its three parameters. *)
Module Main.

Section Game.

(** [app_random_number = random.randint(1, 100)]. *)
Variable app_random_number : Z.

(** Python's [json.loads]. *)
Variable json_loads : string -> exn + pyvalue.

(** [client.chat.completions.create(...)] followed by
    [response.choices[0].message]: an exception or a message.  The first
    argument is the number of requests sent before this one, so that any
    sequence of answers is the behaviour of some [client]. *)
Variable client :
  nat -> string -> list message -> list pyvalue -> exn + response_message.

Definition evaluate_your_try (guess : pyvalue) : M string :=
  emit (SaidGuess guess) ;;
  too_high <- lift (py_gt guess app_random_number) ;;
  if too_high then ret TOO_HIGH_MESSAGE
  else
    too_low <- lift (py_lt guess app_random_number) ;;
    if too_low then ret TOO_LOW_MESSAGE
    else ret THAT_IS_RIGHT_MESSAGE.

(** [available_functions], a dict from tool name to function. *)
Definition available_functions : list (string * (pyvalue -> M string)) :=
  [ ("evaluate_your_try", evaluate_your_try) ].

(** [available_functions[function_name]]. *)
Definition lookup_function (function_name : string) : M (pyvalue -> M string) :=
  match find (fun entry => fst entry =? function_name)%string available_functions with
  | Some entry => ret (snd entry)
  | None => raise (KeyError function_name)
  end.

(** Calling [function_to_call] with [function_args] unpacked as keyword
    arguments, for a function of the one parameter [guess]: the
    arguments must be a mapping with exactly that key. *)
Definition call_with_kwargs
    (function_to_call : pyvalue -> M string) (function_args : pyvalue) : M string :=
  match function_args with
  | PDict [(key, guess)] =>
      if (key =? "guess")%string then function_to_call guess
      else raise (TypeError "got an unexpected keyword argument")
  | PDict [] => raise (TypeError "missing 1 required positional argument: 'guess'")
  | PDict _ => raise (TypeError "got an unexpected keyword argument")
  | _ => raise (TypeError "argument after ** must be a mapping")
  end.

(** *** The methods of [OpenAIGuessGameAgent] *)

Definition start_game_message (tries : Z) : string :=
  "ME: I am thinking of a number between 1 and 100 and you will try to guess it. You have "
    ++ str_int tries ++ " tries to guess.".

Definition init : M unit :=
  fun w =>
    (print (start_game_message (max_tries w)) ;;
     fun w' =>
       (Normal tt,
        with_messages
          [ Turn "system" "You are a fortune teller";
            Turn "user" (start_game_message (max_tries w)) ] w')) w.

(** [OpenAIGuessGameAgent(client, model, max_tries)]: [__init__] sets the
    fields and calls [init].  The defaults are the model [gpt-5-nano] and
    five tries. *)
Definition OpenAIGuessGameAgent (model : string) (max_tries : Z) : result unit * world :=
  init {| model := model; max_tries := max_tries; state := INIT;
          messages := []; trace := [] |}.

Definition entry_of (tc : tool_call) : tool_call_entry :=
  {| entry_id := id tc;
     entry_type := "function";
     entry_name := name (function tc);
     entry_arguments := arguments (function tc) |}.

(** The body of the [for tool_call in response_message.tool_calls] loop. *)
Definition dispatch (tc : tool_call) : M unit :=
  let function_name := name (function tc) in
  function_args <- lift (json_loads (arguments (function tc))) ;;
  let tool_id := id tc in
  function_to_call <- lookup_function function_name ;;
  function_response <- call_with_kwargs function_to_call function_args ;;
  (if (function_response =? THAT_IS_RIGHT_MESSAGE)%string
   then set_state END else ret tt) ;;
  print ("ME: " ++ function_response) ;;
  append_message (ToolTurn tool_id function_name (Json.dumps function_response)).

Definition process_tool_response (response_message : response_message) : M unit :=
  match tool_calls response_message with
  | None => raise (TypeError "'NoneType' object is not iterable")
  | Some calls =>
      append_message (AssistantTurn (content response_message) (map entry_of calls)) ;;
      for_each calls dispatch
  end.

(** [f"{content}"] for a content that may be [None]. *)
Definition str_content (c : option string) : string :=
  match c with
  | Some s => s
  | None => "None"
  end.

Definition process_message (response_message : response_message) : M unit :=
  let final_content := content response_message in
  print ("LLM: " ++ str_content final_content) ;;
  s <- get_state ;;
  if GameState_eqb s PLAYING
  then raise (Exception "Unexpected message from LLM during PLAYING state.")
  else ret tt.

(** [if response_message.tool_calls:] holds for a non-empty list. *)
Definition truthy (calls : option (list tool_call)) : bool :=
  match calls with
  | Some (_ :: _) => true
  | _ => false
  end.

Definition call_llm (tools : list pyvalue) : M unit :=
  fun w =>
    (emit (Create (model w) (messages w) tools) ;;
     response_message <-
       lift (client (requests (trace w)) (model w) (messages w) tools) ;;
     if truthy (tool_calls response_message)
     then process_tool_response response_message
     else process_message response_message) w.

(** How the [while] loop of [play] is left: by its [return], or because
    its condition became false. *)
Inductive loop_exit : Type :=
| Returned
| Finished.

(** [while llm_try < self.max_tries: ...]; [fuel] bounds the number of
    iterations. *)
Fixpoint play_loop (fuel : nat) (llm_try : Z) : M loop_exit :=
  fun w =>
    if llm_try <? max_tries w then
      match fuel with
      | O => (OutOfFuel, w)
      | S fuel' =>
          (let llm_try := llm_try + 1 in
           call_llm g_tools ;;
           s <- get_state ;;
           if GameState_eqb s END then ret Returned
           else play_loop fuel' llm_try) w
      end
    else (Normal Finished, w).

Definition final_message : string :=
  "ME: You lost! My number was " ++ str_int app_random_number
    ++ ". How is it possible when you are the fortune teller?".

(** The statements of [play] after its [try] block. *)
Definition play_epilogue : M unit :=
  set_state END ;;
  print final_message ;;
  append_message (Turn "user" final_message) ;;
  call_llm [].

(** The [try] block of [play] with its handler, which prints the error
    and lets execution continue after the block. *)
Definition play_guarded_loop : M loop_exit :=
  fun w =>
    try_except (play_loop (Z.to_nat (max_tries w)) 0)
      (fun e => emit (SaidError e) ;; ret Finished) w.

Definition play : M unit :=
  set_state PLAYING ;;
  exit <- play_guarded_loop ;;
  match exit with
  | Returned => ret tt
  | Finished => play_epilogue
  end.

(** *** Notions used to state the properties of the game *)

(** The pure part of [evaluate_your_try]: what it returns or raises. *)
Definition verdict (guess : pyvalue) : exn + string :=
  match py_gt guess app_random_number with
  | inl e => inl e
  | inr true => inr TOO_HIGH_MESSAGE
  | inr false =>
      match py_lt guess app_random_number with
      | inl e => inl e
      | inr true => inr TOO_LOW_MESSAGE
      | inr false => inr THAT_IS_RIGHT_MESSAGE
      end
  end.

(** The guess an invocation carries, when it names the tool and its
    arguments parse to a mapping with the single key [guess]. *)
Definition guess_of (tc : tool_call) : option pyvalue :=
  match json_loads (arguments (function tc)) with
  | inr (PDict [(key, guess)]) =>
      if ((key =? "guess") && ("evaluate_your_try" =? name (function tc)))%string
      then Some guess else None
  | _ => None
  end.

(** The world after a successful [dispatch] of [tc] whose guess [guess]
    was evaluated to [function_response]. *)
Definition dispatched (tc : tool_call) (guess : pyvalue) (function_response : string)
    (w : world) : world :=
  {| model := model w;
     max_tries := max_tries w;
     state := if (function_response =? THAT_IS_RIGHT_MESSAGE)%string then END else state w;
     messages :=
       messages w ++
         [ToolTurn (id tc) (name (function tc)) (Json.dumps function_response)];
     trace := trace w ++ [SaidGuess guess; Said ("ME: " ++ function_response)] |}.

(** The tool-result turn that answers [tc] with [function_response]. *)
Definition tool_turn (tc : tool_call) (function_response : string) : message :=
  ToolTurn (id tc) (name (function tc)) (Json.dumps function_response).

(** [answers tc m]: [m] is the tool-result turn of [tc], carrying the
    evaluation of the guess of [tc] against the secret. *)
Definition answers (tc : tool_call) (m : message) : Prop :=
  exists guess function_response,
    guess_of tc = Some guess /\
    verdict guess = inr function_response /\
    m = tool_turn tc function_response.

(** The world after the first three statements of the epilogue of [play]. *)
Definition lost (w : world) : world :=
  {| model := model w;
     max_tries := max_tries w;
     state := END;
     messages := messages w ++ [Turn "user" final_message];
     trace := trace w ++ [Said final_message] |}.

(** The world after the handler of [play] has printed the exception. *)
Definition caught (e : exn) (w : world) : world :=
  with_trace (trace w ++ [SaidError e]) w.

(** The rest of [play] once [llm_try] rounds have been completed. *)
Definition rest_of_play (llm_try : Z) : M unit :=
  fun w =>
    (exit <- try_except (play_loop (Z.to_nat (max_tries w - llm_try)) llm_try)
               (fun e => emit (SaidError e) ;; ret Finished) ;;
     match exit with
     | Returned => ret tt
     | Finished => play_epilogue
     end) w.

(** [at_attempt w0 k w]: [play], called in world [w0], starts its [k]-th
    round in world [w]; the [k - 1] rounds before it returned without
    an exception and without ending the game. *)
Inductive at_attempt (w0 : world) : nat -> world -> Prop :=
| first_attempt :
    0 < max_tries w0 ->
    at_attempt w0 1 (with_state PLAYING w0)
| next_attempt (k : nat) (w w' : world) :
    at_attempt w0 k w ->
    call_llm g_tools w = (Normal tt, w') ->
    state w' <> END ->
    Z.of_nat k < max_tries w0 ->
    at_attempt w0 (S k) w'.

End Game.

End Main.

Import Main.


(** The exception of [process_message]. *)
Definition protocol_violation : exn :=
  Exception "Unexpected message from LLM during PLAYING state.".

(** [guess == n] for an int [n]. *)
Definition py_eq_int (v : pyvalue) (n : Z) : bool :=
  match v with
  | PInt g => g =? n
  | PBool b => int_of_bool b =? n
  | PFloat (FFinite q) => Qeq_bool q (inject_Z n)
  | _ => false
  end.

(** ** Well-formed transcripts *)

(** [followed_by ids ms]: [ms] starts with tool-result turns whose
    [tool_call_id]s are [ids], in that order. *)
Fixpoint followed_by (ids : list string) (ms : list message) : bool :=
  match ids with
  | [] => true
  | i :: ids' =>
      match ms with
      | ToolTurn tool_call_id _ _ :: ms' => (tool_call_id =? i)%string && followed_by ids' ms'
      | _ => false
      end
  end.

(** Every assistant turn with tool invocations is immediately followed by
    the tool-result turns of its invocations, in order. *)
Fixpoint paired (ms : list message) : bool :=
  match ms with
  | [] => true
  | AssistantTurn _ calls :: rest => followed_by (map entry_id calls) rest && paired rest
  | _ :: rest => paired rest
  end.

(** [answered_prefix ids ms]: the tool-result turns [ms] starts with carry
    the first of the [ids], in that order. *)
Fixpoint answered_prefix (ids : list string) (ms : list message) {struct ms} : bool :=
  match ms with
  | ToolTurn tool_call_id _ _ :: ms' =>
      match ids with
      | i :: ids' => (tool_call_id =? i)%string && answered_prefix ids' ms'
      | [] => false
      end
  | _ => true
  end.

(** Every assistant turn with tool invocations is immediately followed by
    the tool-result turns of the first of its invocations, in order. *)
Fixpoint partly_paired (ms : list message) : bool :=
  match ms with
  | [] => true
  | AssistantTurn _ calls :: rest =>
      answered_prefix (map entry_id calls) rest && partly_paired rest
  | _ :: rest => partly_paired rest
  end.

(** [ms] does not start with a tool-result turn. *)
Definition opens (ms : list message) : bool :=
  match ms with
  | ToolTurn _ _ _ :: _ => false
  | _ => true
  end.

(** ** Steps that send no request *)

(** [quiet_step w w']: from [w] to [w'] the agent's configuration is
    unchanged, the state stayed or became [END], the transcript and the
    trace only grew, and no request was sent. *)
Definition quiet_step (w w' : world) : Prop :=
  model w' = model w /\
  max_tries w' = max_tries w /\
  (state w' = state w \/ state w' = END) /\
  (exists ms, messages w' = (messages w ++ ms)%list) /\
  (exists evs, trace w' = (trace w ++ evs)%list /\ requests evs = 0%nat).

(** [evolves w w']: as [quiet_step], but requests may have been sent. *)
Definition evolves (w w' : world) : Prop :=
  model w' = model w /\
  max_tries w' = max_tries w /\
  (state w' = state w \/ state w' = END) /\
  (exists ms, messages w' = (messages w ++ ms)%list) /\
  (exists evs, trace w' = (trace w ++ evs)%list).

(** The world once a request with [tools] has been sent from [w]. *)
Definition sent (tools : list pyvalue) (w : world) : world :=
  with_trace (trace w ++ [Create (model w) (messages w) tools]) w.

(** A computation that terminates and only takes quiet steps. *)
Definition quiet {A} (c : M A) : Prop :=
  forall w r w', c w = (r, w') -> r <> OutOfFuel /\ quiet_step w w'.

(** ** Sample collaborators, for concrete runs *)

Definition quoted (s : string) : string :=
  String Json.dquote (s ++ String Json.dquote EmptyString).

(** The arguments payload [{"guess": digits}]. *)
Definition guess_arguments (digits : string) : string :=
  "{" ++ quoted "guess" ++ ": " ++ digits ++ "}".

(** [json.loads] on the payloads [guess_arguments digits], where [digits] is
    a decimal integer, and on the empty object; any other text is rejected
    here. *)
Definition sample_json_loads (s : string) : exn + pyvalue :=
  let opening := "{" ++ quoted "guess" ++ ": " in
  let n := String.length s in
  let k := String.length opening in
  if (s =? "{}")%string then inr (PDict [])
  else if (prefix opening s && (substring (n - 1) 1 s =? "}"))%string then
    match NilZero.int_of_string (substring k (n - 1 - k) s) with
    | Some d => inr (PDict [("guess", PInt (Z.of_int d))])
    | None => inl (OtherException "JSONDecodeError" s)
    end
  else inl (OtherException "JSONDecodeError" s).

(** A provider that answers the [n]-th request with the [n]-th entry of a
    script, and fails once the script is used up. *)
Definition scripted (script : list (exn + response_message)) :
    nat -> string -> list message -> list pyvalue -> exn + response_message :=
  fun n _ _ _ =>
    nth n script (inl (OtherException "APIConnectionError" "Connection error."))%nat.

(** A response that invokes the tool once with the guess [digits]. *)
Definition guess_call (call_id digits : string) : tool_call :=
  {| id := call_id;
     function := {| name := "evaluate_your_try"; arguments := guess_arguments digits |} |}.

Definition guesses (calls : list tool_call) : exn + response_message :=
  inr {| content := None; tool_calls := Some calls |}.

Definition says (text : string) : exn + response_message :=
  inr {| content := Some text; tool_calls := None |}.

(** An invocation of a tool that is not registered. *)
Definition unknown_call (call_id : string) : tool_call :=
  {| id := call_id;
     function := {| name := "reveal_number"; arguments := guess_arguments "1" |} |}.

(** An invocation of the tool whose arguments are not JSON. *)
Definition garbled_call (call_id : string) : tool_call :=
  {| id := call_id;
     function := {| name := "evaluate_your_try"; arguments := "guess=50" |} |}.

(** The agent built by [main]. *)
Definition fresh_agent (tries : Z) : world := snd (OpenAIGuessGameAgent "gpt-5-nano" tries).

(** The world after one tool-enabled round from [w]. *)
Definition round (secret : Z)
    (client : nat -> string -> list message -> list pyvalue -> exn + response_message)
    (w : world) : world :=
  snd (call_llm secret sample_json_loads client g_tools w).

(** Secret 42: too high, too low, right. *)
Definition winning_script : list (exn + response_message) :=
  [ guesses [guess_call "call_1" "70"];
    guesses [guess_call "call_2" "10"];
    guesses [guess_call "call_3" "42"] ].

(** Secret 7, two tries: both wrong, then a reaction to the final message. *)
Definition losing_script : list (exn + response_message) :=
  [ guesses [guess_call "call_1" "50"];
    guesses [guess_call "call_2" "90"];
    says "I should have known." ].

(** A model that stops using the tool at its second attempt. *)
Definition chatty_script : list (exn + response_message) :=
  [ guesses [guess_call "call_1" "50"];
    says "Is it 25?";
    says "Oh well." ].


(** A response with the right guess followed by an unknown tool. *)
Definition right_then_unknown_script : list (exn + response_message) :=
  [ guesses [guess_call "call_1" "7"; unknown_call "call_2"];
    says "I knew it." ].

(** A response whose only invocation has unreadable arguments. *)
Definition garbled_script : list (exn + response_message) :=
  [ guesses [garbled_call "call_1"];
    says "Oh well." ].

(** A response with the right guess, unreadable arguments, and a guess. *)
Definition right_then_garbled : response_message :=
  {| content := None;
     tool_calls :=
       Some [guess_call "call_1" "7"; garbled_call "call_2"; guess_call "call_3" "50"] |}.

(** A response with the right guess followed by another guess. *)
Definition right_then_wrong : response_message :=
  {| content := None;
     tool_calls := Some [guess_call "call_1" "7"; guess_call "call_2" "50"] |}.

(** ** The entry point *)

(** The provider object [OpenAI(api_key=...)], by what [main.py] uses of
    it: [client.models.list()], which returns or raises, and the chat
    endpoint that [call_llm] calls. *)
Record provider : Type :=
  { models_list : exn + unit;
    chat_completions_create :
      nat -> string -> list message -> list pyvalue -> exn + response_message }.

(** What [main] itself prints: a fixed line, or
    [f"Not connected to OpenAI: {e}"]. *)
Inductive main_line : Type :=
| MainSaid (line : string)
| MainSaidNotConnected (e : exn).

Section EntryPoint.

Variable app_random_number : Z.
Variable json_loads : string -> exn + pyvalue.

(** [os.environ.get("OPENAI_API_KEY")]. *)
Variable environ_get_key : option string.

(** The constructor [OpenAI]. *)
Variable OpenAI : string -> provider.

(** [not api_key]: the variable is unset or empty. *)
Definition falsy_key (api_key : option string) : bool :=
  match api_key with
  | None => true
  | Some key => (key =? EmptyString)%string
  end.

(** [main()]: the lines it prints itself, and the game when one is
    played, as the result of [agent.play()] and the agent afterwards. *)
Definition main : list main_line * option (result unit * world) :=
  let api_key := environ_get_key in
  if falsy_key api_key then
    ([MainSaid "OPENAI_API_KEY environment variable not set."], None)
  else
    match api_key with
    | None => ([], None) (* not reached: [None] is falsy *)
    | Some key =>
        let client := OpenAI key in
        match models_list client with
        | inl e => ([MainSaidNotConnected e], None)
        | inr _ =>
            match OpenAIGuessGameAgent "gpt-5-nano" 5 with
            | (Normal _, agent) =>
                ([], Some (play app_random_number json_loads
                             (chat_completions_create client) agent))
            | other => ([], Some other)
            end
        end
    end.

End EntryPoint.

(** ** Further notions *)

(** The values that compare with an int: [bool], [int] and [float]. *)
Definition is_number (v : pyvalue) : bool :=
  match v with
  | PBool _ | PInt _ | PFloat _ => true
  | _ => false
  end.

(** The [tools] argument of each request, in order. *)
Fixpoint request_tools (t : list event) : list (list pyvalue) :=
  match t with
  | [] => []
  | Create _ _ tools :: rest => tools :: request_tools rest
  | _ :: rest => request_tools rest
  end.

(** The [model] and [messages] arguments of each request, in order. *)
Fixpoint request_transcripts (t : list event) : list (string * list message) :=
  match t with
  | [] => []
  | Create model messages _ :: rest => (model, messages) :: request_transcripts rest
  | _ :: rest => request_transcripts rest
  end.

(** [whole_history w w' sent]: every request of [sent] carries the model
    of [w] and a transcript between those of [w] and [w']. *)
Definition whole_history (w w' : world) (sent : list (string * list message)) : Prop :=
  Forall
    (fun request =>
       fst request = model w /\
       exists before after,
         snd request = (messages w ++ before)%list /\
         messages w' = (snd request ++ after)%list)
    sent.

(** The turns that are neither assistant turns with tool invocations nor
    tool-result turns. *)
Definition plain_turns (ms : list message) : list message :=
  filter (fun m => match m with Turn _ _ => true | _ => false end) ms.

(** The two turns [init] seeds the transcript with. *)
Definition seed_turns (tries : Z) : list message :=
  [ Turn "system" "You are a fortune teller";
    Turn "user" (start_game_message tries) ].


(** A provider whose connectivity check fails. *)
Definition unreachable_provider : string -> provider :=
  fun _ =>
    {| models_list := inl (OtherException "APIConnectionError" "Connection error.");
       chat_completions_create := scripted [] |}.

(** ** The requests of a run *)

Section Runs.

Variable app_random_number : Z.
Variable json_loads : string -> exn + pyvalue.
Variable client :
  nat -> string -> list message -> list pyvalue -> exn + response_message.

(** [requested w0 tools w]: [play], called in world [w0], calls
    [call_llm tools] in world [w]: at the start of one of its rounds, or
    after its guarded loop, at the end of the epilogue. *)
Inductive requested (w0 : world) : list pyvalue -> world -> Prop :=
| round_request (k : nat) (w : world) :
    at_attempt app_random_number json_loads client w0 k w ->
    requested w0 g_tools w
| final_request (w1 : world) :
    play_guarded_loop app_random_number json_loads client (with_state PLAYING w0)
      = (Normal Finished, w1) ->
    requested w0 [] (lost app_random_number w1).

(** No tool response received in the run of [play] from [w0] raises an
    exception while it is processed: every invocation of every such
    response is dispatched successfully. *)
Definition no_dispatch_raises (w0 : world) : Prop :=
  forall tools w rm,
    requested w0 tools w ->
    client (requests (trace w)) (model w) (messages w) tools = inr rm ->
    truthy (tool_calls rm) = true ->
    fst (process_tool_response app_random_number json_loads rm (sent tools w)) = Normal tt.

End Runs.

(** ** When printing succeeds *)

(** Text that every encoding of standard output can encode. *)
Definition ascii_text (s : string) : bool :=
  forallb (fun c => (nat_of_ascii c <? 128)%nat) (list_ascii_of_string s).

(** The values [print] can format and write: an [int] is converted to
    text only if it has at most 4300 digits, and text must be encodable. *)
Fixpoint printable (v : pyvalue) : bool :=
  match v with
  | PNone | PBool _ | PFloat _ => true
  | PInt n => Z.abs n <? 10 ^ 4300
  | PStr s => ascii_text s
  | PList l => forallb printable l
  | PDict items =>
      forallb (fun item => match item with (key, x) => ascii_text key && printable x end)
        items
  end.

(** The exceptions whose text can be written. *)
Definition printable_exn (e : exn) : bool :=
  match e with
  | Exception msg => ascii_text msg
  | TypeError msg => ascii_text msg
  | KeyError key => ascii_text key
  | OtherException _ msg => ascii_text msg
  end.

Definition printable_event (ev : event) : bool :=
  match ev with
  | Said line => ascii_text line
  | SaidGuess guess => printable guess
  | SaidError e => printable_exn e
  | Create _ _ _ => true
  end.

(** The arguments of a recorded invocation parse to a printable value,
    or do not parse. *)
Definition readable_entry (json_loads : string -> exn + pyvalue)
    (entry : tool_call_entry) : bool :=
  match json_loads (entry_arguments entry) with
  | inr v => printable v
  | inl _ => true
  end.

Definition readable_turn (json_loads : string -> exn + pyvalue) (m : message) : bool :=
  match m with
  | AssistantTurn _ entries => forallb (readable_entry json_loads) entries
  | _ => true
  end.

(** [prints_succeed json_loads w]: everything the run that led to [w]
    printed can be written to standard output, and so can the keys and
    values of the arguments of the invocations it recorded.  On such a
    run no [print] of the program fails, as the model takes for granted. *)
Definition prints_succeed (json_loads : string -> exn + pyvalue) (w : world) : bool :=
  forallb printable_event (trace w) && forallb (readable_turn json_loads) (messages w).

(** Assistant turns with at least one invocation, and tool-result turns. *)
Definition tool_traffic (m : message) : bool :=
  match m with
  | AssistantTurn _ (_ :: _) => true
  | ToolTurn _ _ _ => true
  | _ => false
  end.

(** The turns that are not tool traffic. *)
Definition other_turns (ms : list message) : list message :=
  filter (fun m => negb (tool_traffic m)) ms.

(** * Properties *)

#[local] Arguments String.eqb : simpl never.
#[local] Arguments String.append : simpl never.

(** ** Counting requests *)

Lemma requests_app (t1 t2 : list event) :
  requests (t1 ++ t2) = (requests t1 + requests t2)%nat.
Proof.
  induction t1 as [|e t1 IH]; simpl; [reflexivity|].
  destruct e; simpl; rewrite IH; reflexivity.
Qed.

Lemma tool_rounds_app (t1 t2 : list event) :
  tool_rounds (t1 ++ t2) = (tool_rounds t1 + tool_rounds t2)%nat.
Proof.
  induction t1 as [|e t1 IH]; simpl; [reflexivity|].
  destruct e as [| | |m ms [|tool tools]]; simpl; rewrite IH; reflexivity.
Qed.

Lemma tool_rounds_le_requests (t : list event) :
  (tool_rounds t <= requests t)%nat.
Proof.
  induction t as [|e t IH]; simpl; [lia|].
  destruct e as [| | |m ms [|tool tools]]; simpl; lia.
Qed.

Lemma no_requests_no_tool_rounds (t : list event) :
  requests t = 0%nat -> tool_rounds t = 0%nat.
Proof.
  pose proof (tool_rounds_le_requests t). lia.
Qed.

(** ** Quiet steps *)

Lemma quiet_step_refl (w : world) : quiet_step w w.
Proof.
  repeat split; auto.
  - exists []. now rewrite app_nil_r.
  - exists []. now rewrite app_nil_r.
Qed.

Lemma quiet_step_trans (w1 w2 w3 : world) :
  quiet_step w1 w2 -> quiet_step w2 w3 -> quiet_step w1 w3.
Proof.
  intros (Hm1 & Ht1 & Hs1 & [ms1 Hms1] & [ev1 [Hev1 Hr1]])
         (Hm2 & Ht2 & Hs2 & [ms2 Hms2] & [ev2 [Hev2 Hr2]]).
  repeat split.
  - congruence.
  - congruence.
  - destruct Hs2 as [Hs2|Hs2]; [rewrite Hs2; exact Hs1 | now right].
  - exists (ms1 ++ ms2)%list. rewrite Hms2, Hms1. now rewrite app_assoc.
  - exists (ev1 ++ ev2)%list. split.
    + rewrite Hev2, Hev1. now rewrite app_assoc.
    + rewrite requests_app. lia.
Qed.

Lemma quiet_step_end (w w' : world) :
  quiet_step w w' -> state w = END -> state w' = END.
Proof.
  intros (_ & _ & [Hs|Hs] & _) H; congruence.
Qed.

Lemma quiet_ret {A} (a : A) : quiet (ret a).
Proof.
  intros w r w' H. inversion H; subst. split; [discriminate | apply quiet_step_refl].
Qed.

Lemma quiet_raise {A} (e : exn) : quiet (@raise A e).
Proof.
  intros w r w' H. inversion H; subst. split; [discriminate | apply quiet_step_refl].
Qed.

Lemma quiet_lift {A} (r : exn + A) : quiet (lift r).
Proof.
  destruct r; [apply quiet_raise | apply quiet_ret].
Qed.

Lemma quiet_bind {A B} (c : M A) (k : A -> M B) :
  quiet c -> (forall a, quiet (k a)) -> quiet (bind c k).
Proof.
  intros Hc Hk w r w' H. unfold bind in H.
  destruct (c w) as [[a|e|] w1] eqn:E; destruct (Hc _ _ _ E) as [Hr Hq].
  - destruct (Hk a _ _ _ H) as [Hr' Hq']. split; [exact Hr'|].
    eapply quiet_step_trans; eassumption.
  - inversion H; subst. split; [discriminate | exact Hq].
  - contradiction.
Qed.

Lemma quiet_emit (e : event) : requests [e] = 0%nat -> quiet (emit e).
Proof.
  intros He w r w' H. inversion H; subst. split; [discriminate|].
  repeat split; simpl; auto.
  - exists []. now rewrite app_nil_r.
  - exists [e]. auto.
Qed.

Lemma quiet_print (line : string) : quiet (print line).
Proof. apply quiet_emit. reflexivity. Qed.

Lemma quiet_get_state : quiet get_state.
Proof.
  intros w r w' H. inversion H; subst. split; [discriminate | apply quiet_step_refl].
Qed.

Lemma quiet_set_END : quiet (set_state END).
Proof.
  intros w r w' H. inversion H; subst. split; [discriminate|].
  repeat split; simpl; auto.
  - exists []. now rewrite app_nil_r.
  - exists []. now rewrite app_nil_r.
Qed.

Lemma quiet_append_message (m : message) : quiet (append_message m).
Proof.
  intros w r w' H. inversion H; subst. split; [discriminate|].
  repeat split; simpl; auto.
  - exists [m]. reflexivity.
  - exists []. now rewrite app_nil_r.
Qed.

Lemma quiet_for_each {A} (xs : list A) (body : A -> M unit) :
  (forall x, quiet (body x)) -> quiet (for_each xs body).
Proof.
  intros Hb. induction xs as [|x xs IH]; simpl.
  - apply quiet_ret.
  - apply quiet_bind; [apply Hb | intros _; exact IH].
Qed.

Lemma GameState_eqb_spec (a b : GameState) : reflect (a = b) (GameState_eqb a b).
Proof.
  destruct a, b; simpl; constructor; congruence.
Qed.

Lemma evolves_refl (w : world) : evolves w w.
Proof.
  repeat split; auto; exists []; now rewrite app_nil_r.
Qed.

Lemma evolves_trans (w1 w2 w3 : world) :
  evolves w1 w2 -> evolves w2 w3 -> evolves w1 w3.
Proof.
  intros (Hm1 & Ht1 & Hs1 & [ms1 Hms1] & [ev1 Hev1])
         (Hm2 & Ht2 & Hs2 & [ms2 Hms2] & [ev2 Hev2]).
  repeat split.
  - congruence.
  - congruence.
  - destruct Hs2 as [Hs2|Hs2]; [rewrite Hs2; exact Hs1 | now right].
  - exists (ms1 ++ ms2)%list. rewrite Hms2, Hms1. now rewrite app_assoc.
  - exists (ev1 ++ ev2)%list. rewrite Hev2, Hev1. now rewrite app_assoc.
Qed.

Lemma quiet_step_evolves (w w' : world) : quiet_step w w' -> evolves w w'.
Proof.
  intros (Hm & Ht & Hs & Hms & evs & Hev & _). repeat split; auto. now exists evs.
Qed.

Lemma evolves_sent (tools : list pyvalue) (w : world) : evolves w (sent tools w).
Proof.
  repeat split; simpl; auto.
  - exists []. now rewrite app_nil_r.
  - eexists. reflexivity.
Qed.

Lemma evolves_end (w w' : world) : evolves w w' -> state w = END -> state w' = END.
Proof.
  intros (_ & _ & [Hs|Hs] & _) H; congruence.
Qed.

Lemma evolves_trace_In (w w' : world) (e : event) :
  evolves w w' -> In e (trace w) -> In e (trace w').
Proof.
  intros (_ & _ & _ & _ & evs & Hev) H. rewrite Hev. apply in_or_app. now left.
Qed.

(** ** Pairing of assistant turns and tool-result turns *)

Lemma followed_by_app (ids : list string) (ms more : list message) :
  followed_by ids ms = true -> followed_by ids (ms ++ more) = true.
Proof.
  revert ms. induction ids as [|i ids IH]; intros ms H; [reflexivity|].
  destruct ms as [|[| |tid nm txt] ms]; simpl in *; try discriminate.
  apply andb_true_iff in H. destruct H as [Hi H].
  rewrite Hi, (IH _ H). reflexivity.
Qed.

Lemma paired_app (ms more : list message) :
  paired ms = true -> paired more = true -> paired (ms ++ more) = true.
Proof.
  intros H Hmore. induction ms as [|[| |tid nm txt] ms IH]; simpl in *; auto.
  apply andb_true_iff in H. destruct H as [Hf H].
  rewrite (followed_by_app _ _ _ Hf), (IH H). reflexivity.
Qed.

Lemma answered_prefix_app (ms more : list message) :
  forall ids,
    opens more = true ->
    answered_prefix ids ms = true -> answered_prefix ids (ms ++ more) = true.
Proof.
  induction ms as [|[| |tid nm txt] ms IH]; intros ids Ho H; simpl in *; auto.
  - destruct more as [|[| |tid nm txt] more]; simpl in *; auto. discriminate Ho.
  - destruct ids as [|i ids]; [discriminate|].
    apply andb_true_iff in H. destruct H as [Hi H].
    rewrite Hi, (IH _ Ho H). reflexivity.
Qed.

Lemma partly_paired_app (ms more : list message) :
  opens more = true ->
  partly_paired ms = true -> partly_paired more = true ->
  partly_paired (ms ++ more) = true.
Proof.
  intros Ho H Hmore. induction ms as [|[| |tid nm txt] ms IH]; simpl in *; auto.
  apply andb_true_iff in H. destruct H as [Hf H].
  rewrite (answered_prefix_app _ _ _ Ho Hf), (IH H). reflexivity.
Qed.

Lemma map_entry_id (calls : list tool_call) :
  map entry_id (map entry_of calls) = map id calls.
Proof.
  induction calls as [|tc calls IH]; simpl; [reflexivity | now rewrite IH].
Qed.

Section GameFacts.

Variable app_random_number : Z.
Variable json_loads : string -> exn + pyvalue.
Variable client :
  nat -> string -> list message -> list pyvalue -> exn + response_message.

#[local] Abbreviation evaluate_your_try := (evaluate_your_try app_random_number).
#[local] Abbreviation verdict := (verdict app_random_number).
#[local] Abbreviation guess_of := (guess_of json_loads).
#[local] Abbreviation dispatch := (dispatch app_random_number json_loads).
#[local] Abbreviation process_tool_response :=
  (process_tool_response app_random_number json_loads).
#[local] Abbreviation call_llm := (call_llm app_random_number json_loads client).
#[local] Abbreviation play_loop := (play_loop app_random_number json_loads client).
#[local] Abbreviation play_epilogue := (play_epilogue app_random_number json_loads client).
#[local] Abbreviation play_guarded_loop :=
  (play_guarded_loop app_random_number json_loads client).
#[local] Abbreviation rest_of_play := (rest_of_play app_random_number json_loads client).
#[local] Abbreviation play := (play app_random_number json_loads client).
#[local] Abbreviation at_attempt := (at_attempt app_random_number json_loads client).
#[local] Abbreviation answers := (answers app_random_number json_loads).
#[local] Abbreviation final_message := (final_message app_random_number).
#[local] Abbreviation lost := (lost app_random_number).
#[local] Abbreviation process_message := Main.process_message.
#[local] Abbreviation no_dispatch_raises :=
  (no_dispatch_raises app_random_number json_loads client).

(** *** The evaluator *)

Lemma evaluate_your_try_run (guess : pyvalue) (w : world) :
  evaluate_your_try guess w =
    (match verdict guess with inr r => Normal r | inl e => Raised e end,
     with_trace (trace w ++ [SaidGuess guess]) w).
Proof.
  unfold Main.evaluate_your_try, Main.verdict, bind, emit, lift, ret, raise.
  destruct (py_gt guess app_random_number) as [e|[|]]; try reflexivity.
  destruct (py_lt guess app_random_number) as [e|[|]]; reflexivity.
Qed.

Lemma verdict_int (g : Z) :
  verdict (PInt g) =
    inr (if app_random_number <? g then TOO_HIGH_MESSAGE
         else if g <? app_random_number then TOO_LOW_MESSAGE
         else THAT_IS_RIGHT_MESSAGE).
Proof.
  unfold Main.verdict. simpl.
  destruct (app_random_number <? g); [reflexivity|].
  destruct (g <? app_random_number); reflexivity.
Qed.

(** C1.  For integers [g] and [app_random_number] in [1,100],
    [evaluate_your_try] returns exactly one of the three messages: the
    correct one iff the guess equals the secret, the too-high one iff it
    is greater, the too-low one iff it is smaller. *)
Theorem evaluate_your_try_trichotomy (g : Z) (w : world) :
  1 <= g <= 100 ->
  1 <= app_random_number <= 100 ->
  exists r,
    fst (evaluate_your_try (PInt g) w) = Normal r /\
    (r = THAT_IS_RIGHT_MESSAGE \/ r = TOO_HIGH_MESSAGE \/ r = TOO_LOW_MESSAGE) /\
    (r = THAT_IS_RIGHT_MESSAGE <-> g = app_random_number) /\
    (r = TOO_HIGH_MESSAGE <-> g > app_random_number) /\
    (r = TOO_LOW_MESSAGE <-> g < app_random_number).
Proof.
  intros _ _. rewrite evaluate_your_try_run, verdict_int. simpl.
  eexists; split; [reflexivity|].
  destruct (Z.ltb_spec app_random_number g) as [Hgt|Hle].
  - repeat split; auto; intros H; try lia; discriminate H.
  - destruct (Z.ltb_spec g app_random_number) as [Hlt|Hge].
    + repeat split; auto; intros H; try lia; discriminate H.
    + repeat split; auto; intros H; try lia; discriminate H.
Qed.

(** *** One tool invocation *)

Ltac no_events := exists []; split; [now rewrite app_nil_r | reflexivity].

(** [dispatch] either answers the invocation, or raises having at most
    printed the guess. *)
Lemma dispatch_cases (tc : tool_call) (w : world) :
  (exists guess r,
      guess_of tc = Some guess /\ verdict guess = inr r /\
      dispatch tc w = (Normal tt, dispatched tc guess r w))
  \/
  (exists e w',
      dispatch tc w = (Raised e, w') /\
      (guess_of tc = None \/ exists guess e', guess_of tc = Some guess /\ verdict guess = inl e') /\
      model w' = model w /\ max_tries w' = max_tries w /\
      state w' = state w /\ messages w' = messages w /\
      exists evs, trace w' = (trace w ++ evs)%list /\ requests evs = 0%nat).
Proof.
  unfold Main.dispatch, Main.guess_of, bind, lift.
  destruct (json_loads (arguments (function tc))) as [e|args]; simpl.
  { right. exists e, w. repeat split; auto. no_events. }
  unfold lookup_function, available_functions. simpl.
  destruct ("evaluate_your_try" =? name (function tc))%string eqn:En; simpl.
  2:{ right. do 2 eexists. split; [reflexivity|].
      split; [left; destruct args as [| | | | | |[|[key v] [|]]]; auto;
              now rewrite andb_false_r|].
      repeat split; auto. no_events. }
  destruct args as [| | | | | |[|[key v] [|]]]; simpl;
    try (right; do 2 eexists; split; [reflexivity|];
         repeat split; auto; no_events).
  destruct (key =? "guess")%string eqn:Ek; simpl.
  2:{ right. do 2 eexists. split; [reflexivity|].
      repeat split; auto. no_events. }
  rewrite evaluate_your_try_run.
  destruct (verdict v) as [e|r] eqn:Ev.
  - right. do 2 eexists. split; [reflexivity|].
    split; [right; eauto|].
    repeat split; auto. exists [SaidGuess v]. split; reflexivity.
  - left. exists v, r. repeat split; auto.
    unfold dispatched, set_state, print, emit, append_message, ret, with_state,
      with_trace, with_messages; simpl.
    destruct (r =? THAT_IS_RIGHT_MESSAGE)%string; simpl;
      rewrite <- app_assoc; reflexivity.
Qed.

Lemma quiet_step_dispatched (tc : tool_call) (guess : pyvalue) (r : string) (w : world) :
  quiet_step w (dispatched tc guess r w).
Proof.
  repeat split; simpl; auto.
  - destruct (r =? THAT_IS_RIGHT_MESSAGE)%string; auto.
  - eexists. reflexivity.
  - eexists. split; [reflexivity|reflexivity].
Qed.

Lemma quiet_dispatch (tc : tool_call) : quiet (dispatch tc).
Proof.
  intros w r w' H.
  destruct (dispatch_cases tc w)
    as [(g & v & _ & _ & E) | (e & w1 & E & _ & Hm & Ht & Hs & Hms & Hev)];
    rewrite E in H; inversion H; subst; split; try discriminate.
  - apply quiet_step_dispatched.
  - repeat split; auto. exists []. now rewrite app_nil_r.
Qed.

Lemma dispatch_normal (tc : tool_call) (w w' : world) :
  dispatch tc w = (Normal tt, w') ->
  exists guess r,
    guess_of tc = Some guess /\ verdict guess = inr r /\ w' = dispatched tc guess r w.
Proof.
  intros H.
  destruct (dispatch_cases tc w) as [(g & v & Hg & Hv & E) | (e & w1 & E & _)];
    rewrite E in H; inversion H; subst; eauto.
Qed.

Lemma dispatch_raised (tc : tool_call) (w w' : world) (e : exn) :
  dispatch tc w = (Raised e, w') ->
  messages w' = messages w /\ state w' = state w.
Proof.
  intros H.
  destruct (dispatch_cases tc w)
    as [(g & v & Hg & Hv & E) | (e1 & w1 & E & _ & _ & _ & Hs & Hms & _)];
    rewrite E in H; inversion H; subst; auto.
Qed.

(** *** A whole tool response *)

(** The invocations are dispatched in order until one raises: [done] were
    answered, each by its own tool-result turn, and [rest] is empty
    exactly when no exception was raised. *)
Lemma for_each_dispatch_run (calls : list tool_call) (w : world)
    (r : result unit) (w' : world) :
  for_each calls dispatch w = (r, w') ->
  exists done rest turns,
    calls = (done ++ rest)%list /\
    Forall2 answers done turns /\
    messages w' = (messages w ++ turns)%list /\
    (r = Normal tt <-> rest = []) /\
    (forall tc guess,
        In tc done -> guess_of tc = Some guess ->
        verdict guess = inr THAT_IS_RIGHT_MESSAGE -> state w' = END).
Proof.
  revert w. induction calls as [|tc calls IH]; intros w H; simpl in H.
  - inversion H; subst. exists [], [], []. repeat split; auto.
    + now rewrite app_nil_r.
    + intros tc guess [].
  - unfold bind in H.
    destruct (dispatch_cases tc w)
      as [(g & v & Hg & Hv & E) | (e & w1 & E & _ & _ & _ & Hs & Hms & _)];
      rewrite E in H.
    + destruct (IH _ H) as (done & rest & turns & Hc & Ha & Hm & Hr & Hend).
      exists (tc :: done), rest, (tool_turn tc v :: turns). repeat split.
      * simpl. now rewrite Hc.
      * constructor; [|exact Ha]. exists g, v. auto.
      * rewrite Hm. simpl. now rewrite <- app_assoc.
      * apply Hr.
      * apply Hr.
      * intros tc' guess [<-|Hin] Hg' Hv'.
        -- rewrite Hg in Hg'. inversion Hg'; subst guess.
           rewrite Hv in Hv'. inversion Hv'; subst v.
           destruct (quiet_for_each calls dispatch quiet_dispatch _ _ _ H) as [_ Hq].
           apply (quiet_step_end _ _ Hq). reflexivity.
        -- eapply Hend; eassumption.
    + inversion H; subst. exists [], (tc :: calls), []. repeat split; auto.
      * now rewrite app_nil_r.
      * discriminate.
      * discriminate.
      * intros tc' guess [].
Qed.

Lemma quiet_process_tool_response (rm : response_message) :
  quiet (process_tool_response rm).
Proof.
  unfold Main.process_tool_response.
  destruct (tool_calls rm) as [calls|]; [|apply quiet_raise].
  apply quiet_bind; [apply quiet_append_message|].
  intros _. apply quiet_for_each, quiet_dispatch.
Qed.

Lemma process_tool_response_run (rm : response_message) (calls : list tool_call)
    (w : world) (r : result unit) (w' : world) :
  tool_calls rm = Some calls ->
  process_tool_response rm w = (r, w') ->
  exists done rest turns,
    calls = (done ++ rest)%list /\
    Forall2 answers done turns /\
    messages w' =
      (messages w ++ AssistantTurn (content rm) (map entry_of calls) :: turns)%list /\
    (r = Normal tt <-> rest = []) /\
    (forall tc guess,
        In tc done -> guess_of tc = Some guess ->
        verdict guess = inr THAT_IS_RIGHT_MESSAGE -> state w' = END).
Proof.
  intros Hc H. unfold Main.process_tool_response in H. rewrite Hc in H.
  unfold bind, append_message in H.
  destruct (for_each_dispatch_run _ _ _ _ H) as (done & rest & turns & Hd & Ha & Hm & Hr & He).
  exists done, rest, turns. repeat split; auto; try apply Hr.
  rewrite Hm. simpl. now rewrite <- app_assoc.
Qed.

Lemma quiet_process_message (rm : response_message) : quiet (process_message rm).
Proof.
  unfold process_message.
  apply quiet_bind; [apply quiet_print|]. intros _.
  apply quiet_bind; [apply quiet_get_state|]. intros s.
  destruct (GameState_eqb s PLAYING); [apply quiet_raise | apply quiet_ret].
Qed.

Lemma process_message_run (rm : response_message) (w : world) :
  process_message rm w =
    (if GameState_eqb (state w) PLAYING
     then Raised protocol_violation
     else Normal tt,
     with_trace (trace w ++ [Said ("LLM: " ++ str_content (content rm))]) w).
Proof.
  unfold process_message, bind, print, emit, get_state. simpl.
  destruct (GameState_eqb (state w) PLAYING); reflexivity.
Qed.

(** *** One request to the model *)

Lemma call_llm_raised (tools : list pyvalue) (w : world) (e : exn) :
  client (requests (trace w)) (model w) (messages w) tools = inl e ->
  call_llm tools w = (Raised e, sent tools w).
Proof.
  intros H. unfold Main.call_llm, bind, emit. rewrite H. reflexivity.
Qed.

Lemma call_llm_tool_response (tools : list pyvalue) (w : world) (rm : response_message) :
  client (requests (trace w)) (model w) (messages w) tools = inr rm ->
  truthy (tool_calls rm) = true ->
  call_llm tools w = process_tool_response rm (sent tools w).
Proof.
  intros H Ht. unfold Main.call_llm, bind, emit. rewrite H. simpl.
  rewrite Ht. reflexivity.
Qed.

Lemma call_llm_plain_message (tools : list pyvalue) (w : world) (rm : response_message) :
  client (requests (trace w)) (model w) (messages w) tools = inr rm ->
  truthy (tool_calls rm) = false ->
  call_llm tools w = process_message rm (sent tools w).
Proof.
  intros H Ht. unfold Main.call_llm, bind, emit. rewrite H. simpl.
  rewrite Ht. reflexivity.
Qed.

(** Every call sends exactly one request, first, and is quiet afterwards. *)
Lemma call_llm_run (tools : list pyvalue) (w : world) (r : result unit) (w' : world) :
  call_llm tools w = (r, w') ->
  r <> OutOfFuel /\ quiet_step (sent tools w) w'.
Proof.
  intros H.
  destruct (client (requests (trace w)) (model w) (messages w) tools) as [e|rm] eqn:E.
  - rewrite (call_llm_raised _ _ _ E) in H. inversion H; subst.
    split; [discriminate | apply quiet_step_refl].
  - destruct (truthy (tool_calls rm)) eqn:Et.
    + rewrite (call_llm_tool_response _ _ _ E Et) in H.
      eapply quiet_process_tool_response; eassumption.
    + rewrite (call_llm_plain_message _ _ _ E Et) in H.
      eapply quiet_process_message; eassumption.
Qed.

Lemma call_llm_evolves (tools : list pyvalue) (w : world) (r : result unit) (w' : world) :
  call_llm tools w = (r, w') -> evolves w w'.
Proof.
  intros H. destruct (call_llm_run _ _ _ _ H) as [_ Hq].
  eapply evolves_trans; [apply evolves_sent | apply quiet_step_evolves, Hq].
Qed.

Lemma call_llm_requests (tools : list pyvalue) (w : world) (r : result unit) (w' : world) :
  call_llm tools w = (r, w') ->
  exists evs,
    trace w' = (trace w ++ Create (model w) (messages w) tools :: evs)%list /\
    requests evs = 0%nat.
Proof.
  intros H. destruct (call_llm_run _ _ _ _ H) as [_ (_ & _ & _ & _ & evs & Hev & Hr)].
  exists evs. split; [|exact Hr]. rewrite Hev. simpl. now rewrite <- app_assoc.
Qed.

Lemma call_llm_counts (tools : list pyvalue) (w : world) (r : result unit) (w' : world) :
  call_llm tools w = (r, w') ->
  requests (trace w') = S (requests (trace w)) /\
  tool_rounds (trace w') =
    (tool_rounds (trace w) + match tools with [] => 0 | _ :: _ => 1 end)%nat.
Proof.
  intros H. destruct (call_llm_requests _ _ _ _ H) as (evs & Hev & Hr).
  rewrite Hev, requests_app, tool_rounds_app. simpl.
  rewrite Hr. pose proof (no_requests_no_tool_rounds _ Hr) as Ht.
  destruct tools; rewrite Ht; lia.
Qed.

(** *** The guessing loop *)

Ltac six_parts := split; [|split; [|split; [|split; [|split]]]].

Lemma play_loop_unfold (fuel : nat) (llm_try : Z) (w : world) :
  play_loop (S fuel) llm_try w =
    if llm_try <? max_tries w then
      (call_llm g_tools ;;
       s <- get_state ;;
       if GameState_eqb s END then ret Returned else play_loop fuel (llm_try + 1)) w
    else (Normal Finished, w).
Proof. reflexivity. Qed.

Lemma play_loop_finished (fuel : nat) (llm_try : Z) (w : world) :
  max_tries w <= llm_try -> play_loop fuel llm_try w = (Normal Finished, w).
Proof.
  intros H. destruct fuel; simpl; destruct (Z.ltb_spec llm_try (max_tries w)); auto; lia.
Qed.

Lemma play_loop_step (fuel : nat) (llm_try : Z) (w w' : world) :
  llm_try < max_tries w ->
  call_llm g_tools w = (Normal tt, w') ->
  state w' <> END ->
  play_loop (S fuel) llm_try w = play_loop fuel (llm_try + 1) w'.
Proof.
  intros Ht Hc Hs. rewrite play_loop_unfold.
  destruct (Z.ltb_spec llm_try (max_tries w)); [|lia].
  unfold bind, get_state. rewrite Hc.
  destruct (GameState_eqb_spec (state w') END); [contradiction | reflexivity].
Qed.

Lemma play_loop_returned (fuel : nat) (llm_try : Z) (w w' : world) :
  llm_try < max_tries w ->
  call_llm g_tools w = (Normal tt, w') ->
  state w' = END ->
  play_loop (S fuel) llm_try w = (Normal Returned, w').
Proof.
  intros Ht Hc Hs. rewrite play_loop_unfold.
  destruct (Z.ltb_spec llm_try (max_tries w)); [|lia].
  unfold bind, get_state. rewrite Hc.
  destruct (GameState_eqb_spec (state w') END); [reflexivity | contradiction].
Qed.

Lemma play_loop_raised (fuel : nat) (llm_try : Z) (w w' : world) (e : exn) :
  llm_try < max_tries w ->
  call_llm g_tools w = (Raised e, w') ->
  play_loop (S fuel) llm_try w = (Raised e, w').
Proof.
  intros Ht Hc. rewrite play_loop_unfold.
  destruct (Z.ltb_spec llm_try (max_tries w)); [|lia].
  unfold bind. rewrite Hc. reflexivity.
Qed.

(** With fuel for the remaining rounds the loop terminates; every request
    it sends is a tool-enabled round, and there are at most
    [max_tries - llm_try] of them, exactly that many when the loop runs to
    the end. *)
Lemma play_loop_run (fuel : nat) :
  forall (llm_try : Z) (w : world) (r : result loop_exit) (w' : world),
    (Z.to_nat (max_tries w - llm_try) <= fuel)%nat ->
    play_loop fuel llm_try w = (r, w') ->
    r <> OutOfFuel /\
    evolves w w' /\
    (tool_rounds (trace w') <= tool_rounds (trace w) + Z.to_nat (max_tries w - llm_try))%nat /\
    (requests (trace w') + tool_rounds (trace w) =
       requests (trace w) + tool_rounds (trace w'))%nat /\
    (r = Normal Returned -> state w' = END) /\
    (r = Normal Finished ->
       state w' = state w /\
       tool_rounds (trace w') =
         (tool_rounds (trace w) + Z.to_nat (max_tries w - llm_try))%nat).
Proof.
  induction fuel as [|fuel IH]; intros t w r w' Hf H.
  - rewrite play_loop_finished in H by lia. inversion H; subst.
    six_parts; try discriminate; try apply evolves_refl; try lia.
    intros _. split; [reflexivity | lia].
  - destruct (Z.ltb_spec t (max_tries w)) as [Hlt|Hge].
    2:{ rewrite play_loop_finished in H by lia. inversion H; subst.
        six_parts; try discriminate; try apply evolves_refl; try lia.
        intros _. split; [reflexivity | lia]. }
    destruct (call_llm g_tools w) as [[[]|e|] w1] eqn:Ec.
    + pose proof (call_llm_evolves _ _ _ _ Ec) as Hev.
      destruct (call_llm_counts _ _ _ _ Ec) as [Hrq Htr]. simpl in Htr.
      destruct (GameState_eqb_spec (state w1) END) as [Hs|Hs].
      * rewrite (play_loop_returned _ _ _ _ Hlt Ec Hs) in H. inversion H; subst.
        six_parts; try discriminate; auto; lia.
      * rewrite (play_loop_step _ _ _ _ Hlt Ec Hs) in H.
        assert (Hm : max_tries w1 = max_tries w) by apply Hev.
        destruct (IH (t + 1) w1 r w') as (Hr & He & Hb & Hq & Hret & Hfin); auto.
        { rewrite Hm. lia. }
        rewrite Hm in Hb, Hfin.
        six_parts; auto.
        -- eapply evolves_trans; eassumption.
        -- lia.
        -- lia.
        -- intros Hfi. destruct (Hfin Hfi) as [Hst Hn]. split; [|lia].
           rewrite Hst.
           destruct Hev as (_ & _ & [Hs'|Hs'] & _); [exact Hs' | contradiction].
    + rewrite (play_loop_raised _ _ _ _ _ Hlt Ec) in H. inversion H; subst.
      pose proof (call_llm_evolves _ _ _ _ Ec) as Hev.
      destruct (call_llm_counts _ _ _ _ Ec) as [Hrq Htr]. simpl in Htr.
      six_parts; try discriminate; auto; lia.
    + destruct (call_llm_run _ _ _ _ Ec) as [Hno _]. contradiction.
Qed.

(** *** The epilogue and the whole game *)

Lemma play_epilogue_run (w : world) : play_epilogue w = call_llm [] (lost w).
Proof. reflexivity. Qed.

Lemma evolves_lost (w : world) : evolves w (lost w).
Proof.
  unfold evolves; simpl. repeat split; auto; eexists; reflexivity.
Qed.


(** The epilogue ends the game, appends the final message as a user turn
    and sends exactly one request, with no tools. *)
Lemma play_epilogue_facts (w : world) (r : result unit) (w' : world) :
  play_epilogue w = (r, w') ->
  r <> OutOfFuel /\
  evolves w w' /\
  state w' = END /\
  (exists ms,
      messages w' = (messages w ++ Turn "user" final_message :: ms)%list) /\
  (exists evs,
      trace w' =
        (trace w ++
           Said final_message ::
           Create (model w) (messages w ++ [Turn "user" final_message]) [] :: evs)%list /\
      requests evs = 0%nat).
Proof.
  rewrite play_epilogue_run. intros H.
  destruct (call_llm_run _ _ _ _ H) as [Hr Hq].
  pose proof (call_llm_evolves _ _ _ _ H) as Hev.
  destruct (call_llm_requests _ _ _ _ H) as (evs & Htr & Hn).
  split; [exact Hr|]. split; [|split; [|split]].
  - eapply evolves_trans; [apply evolves_lost | exact Hev].
  - apply (evolves_end _ _ Hev). reflexivity.
  - destruct Hev as (_ & _ & _ & [ms Hms] & _). exists ms.
    rewrite Hms. simpl. now rewrite <- app_assoc.
  - exists evs. split; [|exact Hn]. rewrite Htr. simpl. now rewrite <- app_assoc.
Qed.

Lemma play_epilogue_counts (w : world) (r : result unit) (w' : world) :
  play_epilogue w = (r, w') ->
  requests (trace w') = S (requests (trace w)) /\
  tool_rounds (trace w') = tool_rounds (trace w).
Proof.
  intros H. destruct (play_epilogue_facts _ _ _ H) as (_ & _ & _ & _ & evs & Htr & Hn).
  rewrite Htr, requests_app, tool_rounds_app. simpl.
  rewrite Hn, (no_requests_no_tool_rounds _ Hn). lia.
Qed.

Lemma play_rest (w : world) : play w = rest_of_play 0 (with_state PLAYING w).
Proof.
  unfold Main.play, Main.rest_of_play, Main.play_guarded_loop.
  unfold bind at 1. simpl. rewrite Z.sub_0_r. reflexivity.
Qed.

Lemma rest_of_play_finished (llm_try : Z) (w : world) :
  max_tries w <= llm_try -> rest_of_play llm_try w = play_epilogue w.
Proof.
  intros H. unfold Main.rest_of_play, bind, try_except.
  rewrite play_loop_finished by exact H. reflexivity.
Qed.

Lemma remaining_fuel (m t : Z) : t < m -> Z.to_nat (m - t) = S (Z.to_nat (m - (t + 1))).
Proof. lia. Qed.

Lemma rest_of_play_step (llm_try : Z) (w w' : world) :
  llm_try < max_tries w ->
  call_llm g_tools w = (Normal tt, w') ->
  state w' <> END ->
  rest_of_play llm_try w = rest_of_play (llm_try + 1) w'.
Proof.
  intros Ht Hc Hs. unfold Main.rest_of_play, bind, try_except.
  assert (Hm : max_tries w' = max_tries w) by apply (call_llm_evolves _ _ _ _ Hc).
  rewrite Hm, (remaining_fuel _ _ Ht), (play_loop_step _ _ _ _ Ht Hc Hs).
  reflexivity.
Qed.

Lemma rest_of_play_returned (llm_try : Z) (w w' : world) :
  llm_try < max_tries w ->
  call_llm g_tools w = (Normal tt, w') ->
  state w' = END ->
  rest_of_play llm_try w = (Normal tt, w').
Proof.
  intros Ht Hc Hs. unfold Main.rest_of_play, bind, try_except.
  rewrite (remaining_fuel _ _ Ht), (play_loop_returned _ _ _ _ Ht Hc Hs).
  reflexivity.
Qed.

Lemma rest_of_play_raised (llm_try : Z) (w w' : world) (e : exn) :
  llm_try < max_tries w ->
  call_llm g_tools w = (Raised e, w') ->
  rest_of_play llm_try w = play_epilogue (caught e w').
Proof.
  intros Ht Hc. unfold Main.rest_of_play, bind, try_except.
  rewrite (remaining_fuel _ _ Ht), (play_loop_raised _ _ _ _ _ Ht Hc).
  reflexivity.
Qed.

(** [play] by the way its loop is left. *)
Lemma play_cases (w0 : world) :
  let w := with_state PLAYING w0 in
  (exists w1,
      play_loop (Z.to_nat (max_tries w0)) 0 w = (Normal Returned, w1) /\
      play w0 = (Normal tt, w1))
  \/ (exists w1,
      play_loop (Z.to_nat (max_tries w0)) 0 w = (Normal Finished, w1) /\
      play w0 = play_epilogue w1)
  \/ (exists e w1,
      play_loop (Z.to_nat (max_tries w0)) 0 w = (Raised e, w1) /\
      play w0 = play_epilogue (caught e w1)).
Proof.
  intros w. rewrite play_rest. fold w.
  unfold Main.rest_of_play, bind, try_except.
  rewrite Z.sub_0_r. change (max_tries w) with (max_tries w0).
  destruct (play_loop (Z.to_nat (max_tries w0)) 0 w) as [[[]|e|] w1] eqn:E.
  - left. exists w1. split; reflexivity.
  - right. left. exists w1. split; reflexivity.
  - right. right. exists e, w1. split; reflexivity.
  - assert (Hf : (Z.to_nat (max_tries w - 0) <= Z.to_nat (max_tries w0))%nat)
      by (simpl; lia).
    destruct (play_loop_run _ _ _ _ _ Hf E) as [Hr _]. contradiction.
Qed.

(** *** Where [END] comes from *)





(** *** The rounds of a game *)

Lemma at_attempt_facts (w0 : world) (k : nat) (w : world) :
  at_attempt w0 k w ->
  play w0 = rest_of_play (Z.of_nat k - 1) w /\
  max_tries w = max_tries w0 /\
  1 <= Z.of_nat k <= max_tries w0 /\
  state w = PLAYING /\
  (requests (trace w) + 1 = requests (trace w0) + k)%nat /\
  (tool_rounds (trace w) + 1 = tool_rounds (trace w0) + k)%nat.
Proof.
  induction 1 as [Hpos | k w w' Hat (Hp & Hm & Hk & Hs & Hrq & Htr) Hc Hne Hlt].
  - rewrite play_rest. simpl. repeat split; auto; lia.
  - pose proof (call_llm_evolves _ _ _ _ Hc) as (_ & Hm' & Hs' & _).
    destruct (call_llm_counts _ _ _ _ Hc) as [Hrq' Htr']. simpl in Htr'.
    split; [|split; [|split; [|split; [|split]]]]; try lia.
    + rewrite Hp. replace (Z.of_nat (S k) - 1) with (Z.of_nat k - 1 + 1) by lia.
      apply rest_of_play_step; auto. lia.
    + destruct Hs' as [Hs'|Hs']; [congruence | contradiction].
Qed.

Lemma verdict_equal (guess : pyvalue) :
  py_eq_int guess app_random_number = true ->
  verdict guess = inr THAT_IS_RIGHT_MESSAGE.
Proof.
  unfold Main.verdict.
  destruct guess as [|b|g|[| |q]|?|?|?]; simpl; try discriminate; intros H.
  - apply Z.eqb_eq in H. rewrite H, Z.ltb_irrefl. reflexivity.
  - apply Z.eqb_eq in H. rewrite H, Z.ltb_irrefl. reflexivity.
  - apply Qeq_bool_iff in H.
    assert (H1 : Qle_bool q (inject_Z app_random_number) = true)
      by (apply Qle_bool_iff; rewrite H; apply Qle_refl).
    assert (H2 : Qle_bool (inject_Z app_random_number) q = true)
      by (apply Qle_bool_iff; rewrite H; apply Qle_refl).
    rewrite H1, H2. reflexivity.
Qed.

(** *** The game as a whole *)

(** [play] terminates, leaves the game ended, and sends at most
    [max_tries] tool-enabled requests. *)
Lemma play_rounds_bound (w0 : world) (r : result unit) (wf : world) :
  play w0 = (r, wf) ->
  r <> OutOfFuel /\
  state wf = END /\
  (tool_rounds (trace wf) <= tool_rounds (trace w0) + Z.to_nat (max_tries w0))%nat.
Proof.
  intros H.
  assert (Hf : (Z.to_nat (max_tries (with_state PLAYING w0) - 0)
                <= Z.to_nat (max_tries w0))%nat) by (simpl; lia).
  destruct (play_cases w0) as [(w1 & El & Ep) | [(w1 & El & Ep) | (e & w1 & El & Ep)]];
    rewrite Ep in H;
    destruct (play_loop_run _ _ _ _ _ Hf El) as (_ & Hev & Hb & _ & Hret & _);
    simpl in Hb; rewrite Z.sub_0_r in Hb.
  - inversion H; subst. repeat split; auto. discriminate.
  - destruct (play_epilogue_facts _ _ _ H) as (Hr & _ & Hs & _).
    destruct (play_epilogue_counts _ _ _ H) as [_ Ht].
    repeat split; auto. lia.
  - destruct (play_epilogue_facts _ _ _ H) as (Hr & _ & Hs & _).
    destruct (play_epilogue_counts _ _ _ H) as [_ Ht]. simpl in Ht.
    rewrite tool_rounds_app in Ht. simpl in Ht.
    repeat split; auto. lia.
Qed.


(** C3, as amended.  If the response of attempt [k] carries a guess equal
    to the secret and the processing of that response raises no exception,
    then the state is [END] when the round is over and [play] returns
    there: [k] requests were sent in all, and the transcript ends with the
    tool-result turns of that response. *)
Theorem correct_guess_ends_game (w0 : world) (k : nat) (w w' : world)
    (rm : response_message) (calls : list tool_call) (tc : tool_call) (guess : pyvalue) :
  at_attempt w0 k w ->
  client (requests (trace w)) (model w) (messages w) g_tools = inr rm ->
  tool_calls rm = Some calls ->
  In tc calls ->
  guess_of tc = Some guess ->
  py_eq_int guess app_random_number = true ->
  call_llm g_tools w = (Normal tt, w') ->
  state w' = END /\
  play w0 = (Normal tt, w') /\
  requests (trace w') = (requests (trace w0) + k)%nat /\
  tool_rounds (trace w') = (tool_rounds (trace w0) + k)%nat /\
  exists turns,
    Forall2 answers calls turns /\
    messages w' =
      (messages w ++ AssistantTurn (content rm) (map entry_of calls) :: turns)%list.
Proof.
  intros Hat Hc Hcalls Hin Hg Heq Hrun.
  destruct (at_attempt_facts _ _ _ Hat) as (Hp & Hm & Hk & Hs & Hrq & Htr).
  destruct (call_llm_counts _ _ _ _ Hrun) as [Hrq' Htr']. simpl in Htr'.
  assert (Ht : truthy (tool_calls rm) = true)
    by (rewrite Hcalls; destruct calls; [destruct Hin | reflexivity]).
  rewrite (call_llm_tool_response _ _ _ Hc Ht) in Hrun.
  destruct (process_tool_response_run _ _ _ _ _ Hcalls Hrun)
    as (done & rest & turns & Hd & Ha & Hms & Hr & Hend).
  assert (Hrest : rest = []) by (apply Hr; reflexivity).
  subst rest. rewrite app_nil_r in Hd. subst done.
  assert (Hs' : state w' = END)
    by (apply (Hend tc guess Hin Hg), verdict_equal, Heq).
  split; [exact Hs'|]. split; [|split; [lia|split; [lia|]]].
  - rewrite Hp. apply rest_of_play_returned; auto; [lia|].
    rewrite (call_llm_tool_response _ _ _ Hc Ht). exact Hrun.
  - exists turns. split; [exact Ha | exact Hms].
Qed.

(** C5.  If the model answers attempt [k] without a tool invocation, the
    game being played, [process_message] raises the protocol violation,
    having appended nothing; [play] catches it, prints it and runs its
    epilogue: the game is over, and round [k] was the last tool-enabled
    round whatever [max_tries] is. *)
Theorem plain_reply_ends_game (w0 : world) (k : nat) (w : world)
    (rm : response_message) (r : result unit) (wf : world) :
  at_attempt w0 k w ->
  client (requests (trace w)) (model w) (messages w) g_tools = inr rm ->
  truthy (tool_calls rm) = false ->
  play w0 = (r, wf) ->
  r <> OutOfFuel /\
  state w = PLAYING /\
  (exists w',
      process_message rm (sent g_tools w) = (Raised protocol_violation, w') /\
      call_llm g_tools w = (Raised protocol_violation, w') /\
      messages w' = messages w /\
      play_epilogue (caught protocol_violation w') = (r, wf)) /\
  In (SaidError protocol_violation) (trace wf) /\
  state wf = END /\
  tool_rounds (trace wf) = (tool_rounds (trace w0) + k)%nat.
Proof.
  intros Hat Hc Ht H.
  destruct (at_attempt_facts _ _ _ Hat) as (Hp & Hm & Hk & Hs & Hrq & Htr).
  pose proof (call_llm_plain_message _ _ _ Hc Ht) as Hcall.
  pose proof (process_message_run rm (sent g_tools w)) as Hpm.
  simpl in Hpm. rewrite Hs in Hpm. simpl in Hpm.
  rewrite Hpm in Hcall.
  assert (Hlt : Z.of_nat k - 1 < max_tries w) by lia.
  rewrite Hp, (rest_of_play_raised _ _ _ _ Hlt Hcall) in H.
  destruct (play_epilogue_facts _ _ _ H) as (Hr & Hev & Hend & _).
  destruct (play_epilogue_counts _ _ _ H) as [_ Hcount].
  split; [exact Hr|]. split; [exact Hs|]. split; [|split; [|split]].
  - eexists. split; [exact Hpm|]. split; [exact Hcall|]. split; [reflexivity | exact H].
  - eapply evolves_trace_In; [exact Hev|]. simpl.
    apply in_or_app. right. simpl. auto.
  - exact Hend.
  - rewrite Hcount. simpl. repeat rewrite tool_rounds_app. simpl. lia.
Qed.


(** C8.  If the guessing loop is left because the attempts are exhausted,
    then [max_tries] rounds were made and the game was still being
    played; [play] forces the state to [END], appends the final message
    as a user turn, and sends exactly one more request, with no tools. *)
Theorem attempts_exhausted_epilogue (w0 w1 : world) (r : result unit) (wf : world) :
  play_loop (Z.to_nat (max_tries w0)) 0 (with_state PLAYING w0) = (Normal Finished, w1) ->
  play w0 = (r, wf) ->
  r <> OutOfFuel /\
  tool_rounds (trace w1) = (tool_rounds (trace w0) + Z.to_nat (max_tries w0))%nat /\
  state w1 = PLAYING /\
  state wf = END /\
  (exists ms, messages wf = (messages w1 ++ Turn "user" final_message :: ms)%list) /\
  (exists evs,
      trace wf =
        (trace w1 ++
           Said final_message ::
           Create (model w1) (messages w1 ++ [Turn "user" final_message]) [] :: evs)%list /\
      requests evs = 0%nat) /\
  requests (trace wf) = S (requests (trace w1)) /\
  tool_rounds (trace wf) = tool_rounds (trace w1).
Proof.
  intros El H.
  assert (Hf : (Z.to_nat (max_tries (with_state PLAYING w0) - 0)
                <= Z.to_nat (max_tries w0))%nat) by (simpl; lia).
  destruct (play_loop_run _ _ _ _ _ Hf El) as (_ & _ & _ & _ & _ & Hfin).
  destruct (Hfin eq_refl) as [Hs Hn]. simpl in Hs, Hn. rewrite Z.sub_0_r in Hn.
  destruct (play_cases w0) as [(w2 & El' & Ep) | [(w2 & El' & Ep) | (e & w2 & El' & Ep)]];
    rewrite El in El'; inversion El'; subst w2.
  rewrite Ep in H.
  destruct (play_epilogue_facts _ _ _ H) as (Hr & _ & Hend & Hms & Htrace).
  destruct (play_epilogue_counts _ _ _ H) as [Hcq Hct].
  repeat split; auto.
Qed.




(** *** Tool-result turns *)

Lemma verdict_literal (guess : pyvalue) (r : string) :
  verdict guess = inr r ->
  r = TOO_HIGH_MESSAGE \/ r = TOO_LOW_MESSAGE \/ r = THAT_IS_RIGHT_MESSAGE.
Proof.
  unfold Main.verdict.
  destruct (py_gt guess app_random_number) as [e|[|]]; try discriminate.
  - intros H. inversion H. auto.
  - destruct (py_lt guess app_random_number) as [e|[|]]; try discriminate;
      intros H; inversion H; auto.
Qed.

Lemma Forall2_In_r {A B} (P : A -> B -> Prop) (xs : list A) (ys : list B) (y : B) :
  Forall2 P xs ys -> In y ys -> exists x, In x xs /\ P x y.
Proof.
  induction 1 as [|x y' xs ys HP HF IH]; intros Hin; [destruct Hin|].
  destruct Hin as [<-|Hin].
  - exists x. split; [now left | exact HP].
  - destruct (IH Hin) as (x' & Hx & HP'). exists x'. split; [now right | exact HP'].
Qed.

(** C4, as amended.  Every tool-result turn appended by
    [process_tool_response] carries the JSON serialization of one of the
    three messages: the message between double quotes. *)
Theorem tool_result_is_serialized_message (rm : response_message) (w : world)
    (r : result unit) (w' : world) :
  process_tool_response rm w = (r, w') ->
  exists ms,
    messages w' = (messages w ++ ms)%list /\
    forall tool_call_id tool_name text,
      In (ToolTurn tool_call_id tool_name text) ms ->
      exists m,
        (m = TOO_HIGH_MESSAGE \/ m = TOO_LOW_MESSAGE \/ m = THAT_IS_RIGHT_MESSAGE) /\
        text = Json.dumps m /\
        text = quoted m.
Proof.
  intros H. destruct (tool_calls rm) as [calls|] eqn:Ec.
  - destruct (process_tool_response_run _ _ _ _ _ Ec H)
      as (done & rest & turns & _ & Ha & Hms & _).
    eexists. split; [exact Hms|].
    intros i n t [Hin|Hin]; [discriminate Hin|].
    destruct (Forall2_In_r _ _ _ _ Ha Hin) as (tc & _ & g & v & _ & Hv & Ht).
    inversion Ht; subst. exists v. split; [eapply verdict_literal; eassumption|].
    split; [reflexivity|].
    destruct (verdict_literal _ _ Hv) as [ -> | [ -> | -> ] ]; reflexivity.
  - unfold Main.process_tool_response in H. rewrite Ec in H. inversion H; subst.
    exists []. split; [now rewrite app_nil_r | intros i n t []].
Qed.

(** C9, as amended.  When an invocation of a response carries a guess
    equal to the secret and no invocation of the response raises an
    exception, [process_tool_response] goes on after that invocation:
    every invocation, the later ones included, is evaluated against the
    secret and answered by its own tool-result turn, in order, and the
    state is [END] at the end. *)
Theorem later_invocations_still_answered (rm : response_message)
    (earlier later : list tool_call) (tc : tool_call) (guess : pyvalue) (w w' : world) :
  tool_calls rm = Some (earlier ++ tc :: later)%list ->
  guess_of tc = Some guess ->
  py_eq_int guess app_random_number = true ->
  process_tool_response rm w = (Normal tt, w') ->
  state w' = END /\
  exists turns_earlier turn turns_later,
    Forall2 answers earlier turns_earlier /\
    turn = tool_turn tc THAT_IS_RIGHT_MESSAGE /\
    Forall2 answers later turns_later /\
    messages w' =
      (messages w ++
         AssistantTurn (content rm) (map entry_of (earlier ++ tc :: later)) ::
         turns_earlier ++ turn :: turns_later)%list.
Proof.
  intros Hc Hg Heq H.
  destruct (process_tool_response_run _ _ _ _ _ Hc H)
    as (done & rest & turns & Hd & Ha & Hms & Hr & Hend).
  assert (Hrest : rest = []) by (apply Hr; reflexivity).
  subst rest. rewrite app_nil_r in Hd. subst done.
  pose proof (verdict_equal _ Heq) as Hv.
  split.
  - apply (Hend tc guess); auto. apply in_or_app. right. now left.
  - apply Forall2_app_inv_l in Ha. destruct Ha as (te & tl & Hae & Hal & Hturns). subst turns.
    inversion Hal as [|tc' turn later' tl' Hturn Hlater]; subst.
    exists te, turn, tl'. repeat split; auto.
    destruct Hturn as (g & v & Hg' & Hv' & Hturn). subst turn.
    rewrite Hg in Hg'. inversion Hg'; subst g. rewrite Hv in Hv'. inversion Hv'.
    reflexivity.
Qed.

(** *** The transcript *)

Lemma answers_turns (done : list tool_call) (turns : list message) :
  Forall2 answers done turns ->
  paired turns = true /\ partly_paired turns = true /\
  followed_by (map id done) turns = true /\
  forall rest, answered_prefix (map id (done ++ rest)) turns = true.
Proof.
  induction 1 as [|tc m done turns (g & v & _ & _ & ->) _ (IH1 & IH2 & IH3 & IH4)];
    simpl; auto.
  rewrite String.eqb_refl. repeat split; auto.
Qed.

(** What one tool response appends: an assistant turn and the
    tool-result turns of its first invocations, of all of them when no
    exception is raised. *)
Lemma process_tool_response_block (rm : response_message) (w : world)
    (r : result unit) (w' : world) :
  process_tool_response rm w = (r, w') ->
  exists block,
    messages w' = (messages w ++ block)%list /\
    opens block = true /\
    partly_paired block = true /\
    (r = Normal tt -> paired block = true).
Proof.
  intros H. destruct (tool_calls rm) as [calls|] eqn:Ec.
  - destruct (process_tool_response_run _ _ _ _ _ Ec H)
      as (done & rest & turns & Hd & Ha & Hms & Hr & _).
    destruct (answers_turns _ _ Ha) as (Hp & Hpp & Hf & Hap).
    eexists. split; [exact Hms|]. simpl. rewrite map_entry_id.
    split; [reflexivity|]. split.
    + rewrite Hd, Hap, Hpp. reflexivity.
    + intros Hn. apply Hr in Hn. subst rest. rewrite app_nil_r in Hd. subst done.
      rewrite Hf, Hp. reflexivity.
  - unfold Main.process_tool_response in H. rewrite Ec in H. inversion H; subst.
    exists []. repeat split; auto. now rewrite app_nil_r.
Qed.

Lemma call_llm_block (tools : list pyvalue) (w : world) (r : result unit) (w' : world) :
  call_llm tools w = (r, w') ->
  exists block,
    messages w' = (messages w ++ block)%list /\
    opens block = true /\
    partly_paired block = true /\
    (r = Normal tt -> paired block = true).
Proof.
  intros H.
  destruct (client (requests (trace w)) (model w) (messages w) tools) as [e|rm] eqn:E.
  - rewrite (call_llm_raised _ _ _ E) in H. inversion H; subst.
    exists []. simpl. repeat split; auto. now rewrite app_nil_r.
  - destruct (truthy (tool_calls rm)) eqn:Et.
    + rewrite (call_llm_tool_response _ _ _ E Et) in H.
      apply (process_tool_response_block _ _ _ _ H).
    + rewrite (call_llm_plain_message _ _ _ E Et), process_message_run in H.
      inversion H; subst.
      exists []. simpl. repeat split; auto. now rewrite app_nil_r.
Qed.

Lemma call_llm_partly_paired (tools : list pyvalue) (w : world) (r : result unit) (w' : world) :
  call_llm tools w = (r, w') ->
  partly_paired (messages w) = true -> partly_paired (messages w') = true.
Proof.
  intros H Hp. destruct (call_llm_block _ _ _ _ H) as (block & -> & Ho & Hb & _).
  apply partly_paired_app; assumption.
Qed.

Lemma call_llm_paired (tools : list pyvalue) (w w' : world) :
  call_llm tools w = (Normal tt, w') ->
  paired (messages w) = true -> paired (messages w') = true.
Proof.
  intros H Hp. destruct (call_llm_block _ _ _ _ H) as (block & -> & _ & _ & Hb).
  apply paired_app; auto.
Qed.

Lemma play_loop_partly_paired (fuel : nat) :
  forall (llm_try : Z) (w : world) (r : result loop_exit) (w' : world),
    play_loop fuel llm_try w = (r, w') ->
    partly_paired (messages w) = true -> partly_paired (messages w') = true.
Proof.
  induction fuel as [|fuel IH]; intros t w r w' H Hp.
  - simpl in H. destruct (t <? max_tries w); inversion H; subst; exact Hp.
  - destruct (Z.ltb_spec t (max_tries w)) as [Hlt|Hge].
    2:{ rewrite play_loop_finished in H by lia. inversion H; subst. exact Hp. }
    destruct (call_llm g_tools w) as [[[]|e|] w1] eqn:Ec;
      pose proof (call_llm_partly_paired _ _ _ _ Ec Hp) as Hp1.
    + destruct (GameState_eqb_spec (state w1) END) as [Hs1|Hs1].
      * rewrite (play_loop_returned _ _ _ _ Hlt Ec Hs1) in H. inversion H; subst.
        exact Hp1.
      * rewrite (play_loop_step _ _ _ _ Hlt Ec Hs1) in H. eapply IH; eassumption.
    + rewrite (play_loop_raised _ _ _ _ _ Hlt Ec) in H. inversion H; subst. exact Hp1.
    + destruct (call_llm_run _ _ _ _ Ec) as [Hno _]. contradiction.
Qed.

Lemma play_loop_paired (fuel : nat) :
  forall (llm_try : Z) (w : world) (x : loop_exit) (w' : world),
    play_loop fuel llm_try w = (Normal x, w') ->
    paired (messages w) = true -> paired (messages w') = true.
Proof.
  induction fuel as [|fuel IH]; intros t w x w' H Hp.
  - simpl in H. destruct (t <? max_tries w); inversion H; subst; exact Hp.
  - destruct (Z.ltb_spec t (max_tries w)) as [Hlt|Hge].
    2:{ rewrite play_loop_finished in H by lia. inversion H; subst. exact Hp. }
    destruct (call_llm g_tools w) as [[[]|e|] w1] eqn:Ec.
    + pose proof (call_llm_paired _ _ _ Ec Hp) as Hp1.
      destruct (GameState_eqb_spec (state w1) END) as [Hs1|Hs1].
      * rewrite (play_loop_returned _ _ _ _ Hlt Ec Hs1) in H. inversion H; subst.
        exact Hp1.
      * rewrite (play_loop_step _ _ _ _ Hlt Ec Hs1) in H. eapply IH; eassumption.
    + rewrite (play_loop_raised _ _ _ _ _ Hlt Ec) in H. discriminate H.
    + destruct (call_llm_run _ _ _ _ Ec) as [Hno _]. contradiction.
Qed.

Lemma play_epilogue_partly_paired (w : world) (r : result unit) (w' : world) :
  play_epilogue w = (r, w') ->
  partly_paired (messages w) = true -> partly_paired (messages w') = true.
Proof.
  rewrite play_epilogue_run. intros H Hp.
  apply (call_llm_partly_paired _ _ _ _ H). simpl.
  apply partly_paired_app; auto.
Qed.

Lemma play_epilogue_paired (w w' : world) :
  play_epilogue w = (Normal tt, w') ->
  paired (messages w) = true -> paired (messages w') = true.
Proof.
  rewrite play_epilogue_run. intros H Hp.
  apply (call_llm_paired _ _ _ H). simpl.
  apply paired_app; auto.
Qed.

(** A request keeps the transcript paired unless the processing of a
    tool response raises. *)
Lemma call_llm_paired_unless (tools : list pyvalue) (w : world) (r : result unit) (w' : world) :
  call_llm tools w = (r, w') ->
  (forall rm,
      client (requests (trace w)) (model w) (messages w) tools = inr rm ->
      truthy (tool_calls rm) = true ->
      fst (process_tool_response rm (sent tools w)) = Normal tt) ->
  paired (messages w) = true -> paired (messages w') = true.
Proof.
  intros H Hok Hp.
  destruct (client (requests (trace w)) (model w) (messages w) tools) as [e|rm] eqn:E.
  - rewrite (call_llm_raised _ _ _ E) in H. inversion H; subst. exact Hp.
  - destruct (truthy (tool_calls rm)) eqn:Et.
    + rewrite (call_llm_tool_response _ _ _ E Et) in H.
      specialize (Hok rm eq_refl Et). rewrite H in Hok. simpl in Hok. subst r.
      destruct (process_tool_response_block _ _ _ _ H) as (block & -> & _ & _ & Hb).
      apply paired_app; auto.
    + rewrite (call_llm_plain_message _ _ _ E Et), process_message_run in H.
      inversion H; subst. exact Hp.
Qed.

Lemma rounds_paired (w0 : world) (fuel : nat) :
  forall (k : nat) (w : world) (r : result loop_exit) (w' : world),
    no_dispatch_raises w0 ->
    at_attempt w0 k w ->
    play_loop fuel (Z.of_nat k - 1) w = (r, w') ->
    paired (messages w) = true -> paired (messages w') = true.
Proof.
  induction fuel as [|fuel IH]; intros k w r w' Hok Hat H Hp.
  - simpl in H. destruct (Z.of_nat k - 1 <? max_tries w); inversion H; subst; exact Hp.
  - destruct (at_attempt_facts _ _ _ Hat) as (_ & Hm & Hk & _).
    assert (Hlt : Z.of_nat k - 1 < max_tries w) by lia.
    destruct (call_llm g_tools w) as [[[]|e|] w1] eqn:Ec.
    + assert (Hp1 : paired (messages w1) = true).
      { apply (call_llm_paired_unless _ _ _ _ Ec); [|exact Hp].
        intros rm. apply Hok. eapply round_request; eassumption. }
      destruct (GameState_eqb_spec (state w1) END) as [Hs1|Hs1].
      * rewrite (play_loop_returned _ _ _ _ Hlt Ec Hs1) in H. inversion H; subst.
        exact Hp1.
      * rewrite (play_loop_step _ _ _ _ Hlt Ec Hs1) in H.
        assert (Hm1 : max_tries w1 = max_tries w)
          by apply (call_llm_evolves _ _ _ _ Ec).
        destruct (Z.ltb_spec (Z.of_nat k) (max_tries w0)) as [Hmore|Hdone].
        -- apply (IH (S k) w1 r w'); auto.
           ++ eapply next_attempt; eassumption.
           ++ replace (Z.of_nat (S k) - 1) with (Z.of_nat k - 1 + 1) by lia. exact H.
        -- rewrite play_loop_finished in H by lia. inversion H; subst. exact Hp1.
    + rewrite (play_loop_raised _ _ _ _ _ Hlt Ec) in H. inversion H; subst.
      apply (call_llm_paired_unless _ _ _ _ Ec); [|exact Hp].
      intros rm. apply Hok. eapply round_request; eassumption.
    + destruct (call_llm_run _ _ _ _ Ec) as [Hno _]. contradiction.
Qed.

(** [play] by the outcome of its guarded loop. *)
Lemma play_by_guarded_loop (w0 : world) :
  play w0 =
    match play_guarded_loop (with_state PLAYING w0) with
    | (Normal Returned, w1) => (Normal tt, w1)
    | (Normal Finished, w1) => play_epilogue w1
    | (Raised e, w1) => (Raised e, w1)
    | (OutOfFuel, w1) => (OutOfFuel, w1)
    end.
Proof.
  unfold Main.play. unfold bind at 1. simpl. unfold bind.
  destruct (play_guarded_loop (with_state PLAYING w0)) as [[[]|e|] w1]; reflexivity.
Qed.

Lemma guarded_loop_paired (w0 : world) (r : result loop_exit) (w1 : world) :
  no_dispatch_raises w0 ->
  play_guarded_loop (with_state PLAYING w0) = (r, w1) ->
  paired (messages w0) = true -> paired (messages w1) = true.
Proof.
  intros Hok H Hp. unfold Main.play_guarded_loop, try_except in H.
  change (max_tries (with_state PLAYING w0)) with (max_tries w0) in H.
  destruct (play_loop (Z.to_nat (max_tries w0)) 0 (with_state PLAYING w0))
    as [r' w'] eqn:El.
  assert (Hp' : paired (messages w') = true).
  { destruct (Z.ltb_spec 0 (max_tries w0)) as [Hpos|Hnone].
    - apply (rounds_paired w0 (Z.to_nat (max_tries w0)) 1 (with_state PLAYING w0) r' w');
        auto.
      apply first_attempt. exact Hpos.
    - rewrite play_loop_finished in El by (simpl; lia). inversion El; subst. exact Hp. }
  destruct r' as [x|e|]; inversion H; subst; exact Hp'.
Qed.

(** C7, as amended.  In every transcript produced by [play], each
    assistant turn that carries tool invocations is followed immediately
    by tool-result turns carrying the identifiers of its first
    invocations, in the order of the invocations.  In a run in which no
    dispatch of a tool invocation raises an exception, whatever else
    happens in it (a protocol violation, a failure of the provider), it
    is followed by the tool-result turns of all its invocations. *)
Theorem transcript_pairing (w0 : world) (r : result unit) (wf : world) :
  play w0 = (r, wf) ->
  (partly_paired (messages w0) = true -> partly_paired (messages wf) = true) /\
  (paired (messages w0) = true ->
   no_dispatch_raises w0 ->
   paired (messages wf) = true).
Proof.
  intros H. split.
  - intros Hp.
    destruct (play_cases w0) as [(w1 & El & Ep) | [(w1 & El & Ep) | (e & w1 & El & Ep)]];
      rewrite Ep in H.
    + inversion H; subst. apply (play_loop_partly_paired _ _ _ _ _ El Hp).
    + apply (play_epilogue_partly_paired _ _ _ H).
      apply (play_loop_partly_paired _ _ _ _ _ El Hp).
    + apply (play_epilogue_partly_paired _ _ _ H). simpl.
      apply (play_loop_partly_paired _ _ _ _ _ El Hp).
  - intros Hp Hok. rewrite play_by_guarded_loop in H.
    destruct (play_guarded_loop (with_state PLAYING w0)) as [rl w1] eqn:Eg.
    pose proof (guarded_loop_paired _ _ _ Hok Eg Hp) as Hp1.
    destruct rl as [[]|e|]; try (inversion H; subst; exact Hp1).
    rewrite play_epilogue_run in H.
    apply (call_llm_paired_unless _ _ _ _ H).
    + intros rm. apply Hok. apply final_request. exact Eg.
    + simpl. apply paired_app; auto.
Qed.

End GameFacts.

(** C1 at the guess 70 for the secret 42. *)
Lemma evaluate_your_try_trichotomy_witness :
  exists r,
    fst (evaluate_your_try 42 (PInt 70) (fresh_agent 5)) = Normal r /\
    (r = THAT_IS_RIGHT_MESSAGE \/ r = TOO_HIGH_MESSAGE \/ r = TOO_LOW_MESSAGE) /\
    (r = THAT_IS_RIGHT_MESSAGE <-> 70 = 42) /\
    (r = TOO_HIGH_MESSAGE <-> 70 > 42) /\
    (r = TOO_LOW_MESSAGE <-> 70 < 42).
Proof.
  apply (evaluate_your_try_trichotomy 42 70 (fresh_agent 5)); lia.
Defined.

(** * Further properties of the code *)

Lemma request_tools_app (t1 t2 : list event) :
  request_tools (t1 ++ t2) = (request_tools t1 ++ request_tools t2)%list.
Proof.
  induction t1 as [|e t1 IH]; simpl; [reflexivity|].
  destruct e; simpl; rewrite IH; reflexivity.
Qed.

Lemma request_tools_quiet (t : list event) :
  requests t = 0%nat -> request_tools t = [].
Proof.
  induction t as [|e t IH]; simpl; [reflexivity|].
  destruct e; simpl; auto. discriminate.
Qed.

Lemma request_tools_length (t : list event) :
  List.length (request_tools t) = requests t.
Proof.
  induction t as [|e t IH]; simpl; [reflexivity|].
  destruct e; simpl; rewrite IH; reflexivity.
Qed.

Lemma plain_turns_app (ms1 ms2 : list message) :
  plain_turns (ms1 ++ ms2) = (plain_turns ms1 ++ plain_turns ms2)%list.
Proof. apply filter_app. Qed.

Lemma new_agent (model : string) (tries : Z) :
  OpenAIGuessGameAgent model tries =
    (Normal tt,
     {| model := model; max_tries := tries; state := INIT;
        messages := seed_turns tries;
        trace := [Said (start_game_message tries)] |}).
Proof. reflexivity. Qed.

Section Coverage.

Variable app_random_number : Z.
Variable json_loads : string -> exn + pyvalue.
Variable client :
  nat -> string -> list message -> list pyvalue -> exn + response_message.

#[local] Abbreviation evaluate_your_try := (evaluate_your_try app_random_number).
#[local] Abbreviation verdict := (verdict app_random_number).
#[local] Abbreviation guess_of := (guess_of json_loads).
#[local] Abbreviation dispatch := (dispatch app_random_number json_loads).
#[local] Abbreviation process_tool_response :=
  (process_tool_response app_random_number json_loads).
#[local] Abbreviation call_llm := (call_llm app_random_number json_loads client).
#[local] Abbreviation play_loop := (play_loop app_random_number json_loads client).
#[local] Abbreviation play_epilogue := (play_epilogue app_random_number json_loads client).
#[local] Abbreviation play := (play app_random_number json_loads client).
#[local] Abbreviation answers := (answers app_random_number json_loads).
#[local] Abbreviation final_message := (final_message app_random_number).
#[local] Abbreviation lost := (lost app_random_number).

(** *** The evaluator on every value *)

Lemma verdict_of_number (guess : pyvalue) :
  is_number guess = true ->
  exists r,
    verdict guess = inr r /\
    (r = TOO_HIGH_MESSAGE \/ r = TOO_LOW_MESSAGE \/ r = THAT_IS_RIGHT_MESSAGE).
Proof.
  intros H.
  assert (Hv : exists r, verdict guess = inr r).
  { unfold Main.verdict.
    destruct guess as [|b|g|x|?|?|?]; try discriminate H; simpl.
    - destruct (app_random_number <? int_of_bool b); eauto.
      destruct (int_of_bool b <? app_random_number); eauto.
    - destruct (app_random_number <? g); eauto.
      destruct (g <? app_random_number); eauto.
    - destruct (float_gt_int x app_random_number); eauto.
      destruct (float_lt_int x app_random_number); eauto. }
  destruct Hv as [r Hr]. exists r. split; [exact Hr|].
  eapply verdict_literal; eassumption.
Qed.

Lemma verdict_of_other (guess : pyvalue) :
  is_number guess = false -> exists msg, verdict guess = inl (TypeError msg).
Proof.
  intros H. unfold Main.verdict.
  destruct guess; try discriminate H; simpl; eauto.
Qed.

(** X1.  On a guess that [print] can write (an int of at most 4300
    digits, ASCII text, and the like), [evaluate_your_try] prints the
    guess first.  If the guess is a [bool], an [int] or a [float], it then
    returns one of the three messages; if it is any other value ([None],
    a string, a list, a mapping), it raises [TypeError]. *)
Theorem evaluate_your_try_numbers_only (guess : pyvalue) (w : world) :
  printable guess = true ->
  let printed := with_trace (trace w ++ [SaidGuess guess]) w in
  if is_number guess
  then exists r,
         evaluate_your_try guess w = (Normal r, printed) /\
         (r = TOO_HIGH_MESSAGE \/ r = TOO_LOW_MESSAGE \/ r = THAT_IS_RIGHT_MESSAGE)
  else exists msg, evaluate_your_try guess w = (Raised (TypeError msg), printed).
Proof.
  intros _ printed. rewrite evaluate_your_try_run. fold printed.
  destruct (is_number guess) eqn:E.
  - destruct (verdict_of_number _ E) as (r & Hr & Hlit).
    exists r. rewrite Hr. auto.
  - destruct (verdict_of_other _ E) as (msg & Hm).
    exists msg. rewrite Hm. reflexivity.
Qed.

(** X2.  [evaluate_your_try] answers that the guess is right exactly when
    the guess is a number equal to the secret ([True] counting as 1), or
    is the float NaN, which is neither greater nor smaller than the
    secret. *)
Theorem right_iff_equal_or_nan (guess : pyvalue) (w : world) :
  fst (evaluate_your_try guess w) = Normal THAT_IS_RIGHT_MESSAGE <->
  py_eq_int guess app_random_number = true \/ guess = PFloat FNaN.
Proof.
  rewrite evaluate_your_try_run. simpl. split.
  - intros H. unfold Main.verdict in H.
    destruct guess as [|b|g|[|neg|q]|?|?|?]; simpl in *; try discriminate H.
    + left.
      destruct (Z.ltb_spec app_random_number (int_of_bool b)); [discriminate H|].
      destruct (Z.ltb_spec (int_of_bool b) app_random_number); [discriminate H|].
      apply Z.eqb_eq. lia.
    + left.
      destruct (Z.ltb_spec app_random_number g); [discriminate H|].
      destruct (Z.ltb_spec g app_random_number); [discriminate H|].
      apply Z.eqb_eq. lia.
    + now right.
    + destruct neg; simpl in H; discriminate H.
    + left.
      destruct (Qle_bool q (inject_Z app_random_number)) eqn:E1; simpl in H;
        [|discriminate H].
      destruct (Qle_bool (inject_Z app_random_number) q) eqn:E2; simpl in H;
        [|discriminate H].
      apply Qeq_bool_iff. apply Qle_antisym; apply Qle_bool_iff; assumption.
  - intros [H | ->].
    + rewrite (verdict_equal _ _ H). reflexivity.
    + reflexivity.
Qed.

(** *** One invocation, every outcome *)

(** X3.  [dispatch] answers an invocation exactly when it names the tool,
    its arguments parse to a mapping with the single key [guess], and the
    guess is a number.  Otherwise it raises, and then the transcript and
    the state are as before and no request was sent. *)
Theorem dispatch_succeeds_iff_well_formed (tc : tool_call) (w : world) :
  match dispatch tc w with
  | (Normal _, w') =>
      exists guess r,
        guess_of tc = Some guess /\ is_number guess = true /\
        verdict guess = inr r /\ w' = dispatched tc guess r w
  | (Raised e, w') =>
      (forall guess, guess_of tc = Some guess -> is_number guess = false) /\
      messages w' = messages w /\ state w' = state w /\
      requests (trace w') = requests (trace w)
  | (OutOfFuel, _) => False
  end.
Proof.
  destruct (dispatch_cases app_random_number json_loads tc w)
    as [(g & v & Hg & Hv & E) | (e & w1 & E & Hbad & _ & _ & Hs & Hms & evs & Hev & Hn)];
    rewrite E.
  - exists g, v. repeat split; auto.
    destruct (is_number g) eqn:En; [reflexivity|].
    destruct (verdict_of_other _ En) as (msg & Hm). congruence.
  - repeat split; auto.
    + intros guess Hg. destruct Hbad as [Hnone | (g & e' & Hg' & He')]; [congruence|].
      assert (g = guess) by congruence. subst g.
      destruct (is_number guess) eqn:En; [|reflexivity].
      destruct (verdict_of_number _ En) as (r & Hr & _). congruence.
    + rewrite Hev, requests_app, Hn. lia.
Qed.

(** X4.  The exceptions of [dispatch], by precedence.  Unreadable
    arguments raise the parser's exception, even for an unknown tool,
    since the arguments are parsed first.  With readable arguments an
    unknown tool name raises [KeyError] of that name.  With the name of
    the tool, arguments that are not a mapping with the single key
    [guess] raise [TypeError]; in these three cases nothing is printed or
    appended.  With the single key [guess], a guess that is not a number
    and that [print] can write is printed and raises [TypeError]. *)
Theorem dispatch_exception_precedence (tc : tool_call) (w : world) :
  match json_loads (arguments (function tc)) with
  | inl e => dispatch tc w = (Raised e, w)
  | inr args =>
      if ("evaluate_your_try" =? name (function tc))%string then
        match args with
        | PDict [(key, guess)] =>
            if (key =? "guess")%string then
              is_number guess = false ->
              printable guess = true ->
              exists msg,
                dispatch tc w =
                  (Raised (TypeError msg), with_trace (trace w ++ [SaidGuess guess]) w)
            else exists msg, dispatch tc w = (Raised (TypeError msg), w)
        | _ => exists msg, dispatch tc w = (Raised (TypeError msg), w)
        end
      else dispatch tc w = (Raised (KeyError (name (function tc))), w)
  end.
Proof.
  unfold Main.dispatch, bind, lift.
  destruct (json_loads (arguments (function tc))) as [e0|args]; simpl; [reflexivity|].
  unfold lookup_function, available_functions. simpl.
  destruct ("evaluate_your_try" =? name (function tc))%string; simpl; [|reflexivity].
  destruct args as [| | | | | |[|[key v] [|]]]; simpl; eauto.
  destruct (key =? "guess")%string; simpl; eauto.
  intros Hn _. rewrite evaluate_your_try_run.
  destruct (verdict_of_other _ Hn) as (msg & Hm). rewrite Hm. eauto.
Qed.

(** *** One tool response, every outcome *)

(** X5.  Whatever happens when the invocations are dispatched,
    [process_tool_response] first records the assistant turn with every
    invocation of the response.  What follows it are tool-result turns
    only, at most one per invocation, each carrying the identifier of an
    invocation of the response and the name [evaluate_your_try]. *)
Theorem tool_response_transcript (rm : response_message) (calls : list tool_call)
    (w : world) :
  tool_calls rm = Some calls ->
  exists turns,
    messages (snd (process_tool_response rm w)) =
      (messages w ++ AssistantTurn (content rm) (map entry_of calls) :: turns)%list /\
    (List.length turns <= List.length calls)%nat /\
    (fst (process_tool_response rm w) = Normal tt -> List.length turns = List.length calls) /\
    forall m,
      In m turns ->
      exists tc text,
        In tc calls /\ m = ToolTurn (id tc) "evaluate_your_try" text.
Proof.
  intros Hc.
  destruct (process_tool_response rm w) as [r w'] eqn:E.
  destruct (process_tool_response_run _ _ _ _ _ _ _ Hc E)
    as (done & rest & turns & Hd & Ha & Hms & Hr & _).
  exists turns. simpl. split; [exact Hms|].
  pose proof (Forall2_length Ha) as Hlen.
  split; [|split].
  - rewrite Hd, List.length_app. lia.
  - intros Hn. apply Hr in Hn. subst rest. rewrite app_nil_r in Hd. congruence.
  - intros m Hin.
    destruct (Forall2_In_r _ _ _ _ Ha Hin) as (tc & Htc & g & v & Hg & _ & Hm).
    exists tc, (Json.dumps v). split.
    + rewrite Hd. apply in_or_app. now left.
    + subst m. unfold tool_turn. f_equal.
      unfold Main.guess_of in Hg.
      destruct (json_loads (arguments (function tc))) as [?|[| | | | | |[|[key v'] [|]]]];
        try discriminate Hg.
      destruct (key =? "guess")%string; simpl in Hg; [|discriminate Hg].
      destruct (String.eqb_spec "evaluate_your_try" (name (function tc)));
        [congruence | discriminate Hg].
Qed.

(** *** The shape of a game *)

Lemma answers_no_plain_turn (done : list tool_call) (turns : list message) :
  Forall2 answers done turns -> plain_turns turns = [].
Proof.
  induction 1 as [|tc m done turns (g & v & _ & _ & ->) _ IH]; simpl; auto.
Qed.

(** A request appends an assistant turn and tool-result turns, or nothing. *)
Lemma call_llm_appends (tools : list pyvalue) (w : world) (r : result unit) (w' : world) :
  call_llm tools w = (r, w') ->
  exists block, messages w' = (messages w ++ block)%list /\ plain_turns block = [].
Proof.
  intros H.
  destruct (client (requests (trace w)) (model w) (messages w) tools) as [e|rm] eqn:E.
  - rewrite (call_llm_raised _ _ _ _ _ _ E) in H. inversion H; subst.
    exists []. simpl. split; [now rewrite app_nil_r | reflexivity].
  - destruct (truthy (tool_calls rm)) eqn:Et.
    + rewrite (call_llm_tool_response _ _ _ _ _ _ E Et) in H.
      destruct (tool_calls rm) as [calls|] eqn:Ec; [|discriminate Et].
      destruct (process_tool_response_run _ _ _ _ _ _ _ Ec H)
        as (done & rest & turns & _ & Ha & Hms & _).
      eexists. split; [exact Hms|]. simpl.
      eapply answers_no_plain_turn; eassumption.
    + rewrite (call_llm_plain_message _ _ _ _ _ _ E Et), process_message_run in H.
      inversion H; subst.
      exists []. simpl. split; [now rewrite app_nil_r | reflexivity].
Qed.

(** The loop sends tool-enabled requests only, and appends no plain turn. *)
Lemma play_loop_shape (fuel : nat) :
  forall (llm_try : Z) (w : world) (r : result loop_exit) (w' : world),
    (Z.to_nat (max_tries w - llm_try) <= fuel)%nat ->
    play_loop fuel llm_try w = (r, w') ->
    exists evs n ms,
      trace w' = (trace w ++ evs)%list /\
      request_tools evs = repeat g_tools n /\
      (n <= Z.to_nat (max_tries w - llm_try))%nat /\
      (r <> Normal Finished -> (0 < n)%nat) /\
      messages w' = (messages w ++ ms)%list /\
      plain_turns ms = [].
Proof.
  induction fuel as [|fuel IH]; intros t w r w' Hf H.
  - rewrite play_loop_finished in H by lia. inversion H; subst.
    exists [], 0%nat, []. repeat rewrite app_nil_r.
    repeat split; auto; try lia. intros Hr. now contradiction Hr.
  - destruct (Z.ltb_spec t (max_tries w)) as [Hlt|Hge].
    2:{ rewrite play_loop_finished in H by lia. inversion H; subst.
        exists [], 0%nat, []. repeat rewrite app_nil_r.
        repeat split; auto; try lia. intros Hr. now contradiction Hr. }
    destruct (call_llm g_tools w) as [[[]|e|] w1] eqn:Ec;
      try (destruct (call_llm_run _ _ _ _ _ _ _ Ec) as [Hno _]; now contradiction Hno);
      destruct (call_llm_requests _ _ _ _ _ _ _ Ec) as (evs1 & Htr1 & Hq1);
      destruct (call_llm_appends _ _ _ _ Ec) as (ms1 & Hms1 & Hp1);
      pose proof (request_tools_quiet _ Hq1) as Hrt1.
    + destruct (GameState_eqb_spec (state w1) END) as [Hs1|Hs1].
      * rewrite (play_loop_returned _ _ _ _ _ _ _ Hlt Ec Hs1) in H. inversion H; subst.
        exists (Create (model w) (messages w) g_tools :: evs1), 1%nat, ms1. split; [exact Htr1|].
        simpl. rewrite Hrt1. repeat split; auto; lia.
      * rewrite (play_loop_step _ _ _ _ _ _ _ Hlt Ec Hs1) in H.
        assert (Hm : max_tries w1 = max_tries w)
          by apply (call_llm_evolves _ _ _ _ _ _ _ Ec).
        destruct (IH (t + 1) w1 r w') as (evs2 & n & ms2 & Htr2 & Hrt2 & Hn & Hpos & Hms2 & Hp2);
          auto.
        { rewrite Hm. lia. }
        rewrite Hm in Hn.
        exists (Create (model w) (messages w) g_tools :: evs1 ++ evs2)%list,
               (S n), (ms1 ++ ms2)%list.
        split; [rewrite Htr2, Htr1, <- app_assoc; reflexivity|].
        split; [simpl; rewrite request_tools_app, Hrt1, Hrt2; reflexivity|].
        split; [lia|]. split; [intros _; lia|].
        split; [rewrite Hms2, Hms1, app_assoc; reflexivity|].
        rewrite plain_turns_app, Hp1, Hp2. reflexivity.
    + rewrite (play_loop_raised _ _ _ _ _ _ _ _ Hlt Ec) in H. inversion H; subst.
      exists (Create (model w) (messages w) g_tools :: evs1), 1%nat, ms1. split; [exact Htr1|].
      simpl. rewrite Hrt1. repeat split; auto; lia.
Qed.

(** The epilogue sends one request, with no tools, and appends one plain
    turn, the final message. *)
Lemma play_epilogue_shape (w : world) (r : result unit) (w' : world) :
  play_epilogue w = (r, w') ->
  exists evs ms,
    trace w' = (trace w ++ evs)%list /\
    request_tools evs = [[]] /\
    messages w' = (messages w ++ ms)%list /\
    plain_turns ms = [Turn "user" final_message].
Proof.
  rewrite play_epilogue_run. intros H.
  destruct (call_llm_requests _ _ _ _ _ _ _ H) as (evs & Htr & Hq).
  destruct (call_llm_appends _ _ _ _ H) as (ms & Hms & Hp).
  exists (Said final_message :: Create (model w) (messages w ++ [Turn "user" final_message]) [] :: evs)%list,
         (Turn "user" final_message :: ms).
  split; [rewrite Htr; simpl; rewrite <- app_assoc; reflexivity|].
  split; [simpl; rewrite (request_tools_quiet _ Hq); reflexivity|].
  split; [rewrite Hms; simpl; rewrite <- app_assoc; reflexivity|].
  simpl. fold (plain_turns ms). rewrite Hp. reflexivity.
Qed.

Lemma play_shape (w0 : world) (r : result unit) (wf : world) :
  play w0 = (r, wf) ->
  exists evs n final ms,
    trace wf = (trace w0 ++ evs)%list /\
    request_tools evs = (repeat g_tools n ++ final)%list /\
    (final = [] \/ final = [[]]) /\
    (n <= Z.to_nat (max_tries w0))%nat /\
    (1 <= n + List.length final)%nat /\
    messages wf = (messages w0 ++ ms)%list /\
    (plain_turns ms = [] \/ plain_turns ms = [Turn "user" final_message]).
Proof.
  intros H.
  assert (Hf : (Z.to_nat (max_tries (with_state PLAYING w0) - 0)
                <= Z.to_nat (max_tries w0))%nat) by (simpl; lia).
  destruct (play_cases app_random_number json_loads client w0)
    as [(w1 & El & Ep) | [(w1 & El & Ep) | (e & w1 & El & Ep)]];
    rewrite Ep in H;
    destruct (play_loop_shape _ _ _ _ _ Hf El)
      as (evs & n & ms & Htr & Hrt & Hn & Hpos & Hms & Hp);
    simpl in Htr, Hn, Hms; rewrite Z.sub_0_r in Hn.
  - inversion H; subst.
    exists evs, n, [], ms. rewrite app_nil_r.
    repeat split; auto.
    assert (0 < n)%nat by (apply Hpos; discriminate). simpl. lia.
  - destruct (play_epilogue_shape _ _ _ H) as (evs' & ms' & Htr' & Hrt' & Hms' & Hp').
    exists (evs ++ evs')%list, n, [[]], (ms ++ ms')%list.
    split; [rewrite Htr', Htr, app_assoc; reflexivity|].
    split; [rewrite request_tools_app, Hrt, Hrt'; reflexivity|].
    split; [now right|]. split; [exact Hn|]. split; [simpl; lia|].
    split; [rewrite Hms', Hms, app_assoc; reflexivity|].
    right. rewrite plain_turns_app, Hp, Hp'. reflexivity.
  - destruct (play_epilogue_shape _ _ _ H) as (evs' & ms' & Htr' & Hrt' & Hms' & Hp').
    simpl in Htr', Hms'.
    exists (evs ++ SaidError e :: evs')%list, n, [[]], (ms ++ ms')%list.
    split; [rewrite Htr', Htr; repeat rewrite <- app_assoc; reflexivity|].
    split; [rewrite request_tools_app, Hrt; simpl; rewrite Hrt'; reflexivity|].
    split; [now right|]. split; [exact Hn|]. split; [simpl; lia|].
    split; [rewrite Hms', Hms, app_assoc; reflexivity|].
    right. rewrite plain_turns_app, Hp, Hp'. reflexivity.
Qed.

Lemma play_configuration (w0 : world) (r : result unit) (wf : world) :
  play w0 = (r, wf) -> model wf = model w0 /\ max_tries wf = max_tries w0.
Proof.
  intros H.
  assert (Hf : (Z.to_nat (max_tries (with_state PLAYING w0) - 0)
                <= Z.to_nat (max_tries w0))%nat) by (simpl; lia).
  destruct (play_cases app_random_number json_loads client w0)
    as [(w1 & El & Ep) | [(w1 & El & Ep) | (e & w1 & El & Ep)]];
    rewrite Ep in H;
    destruct (play_loop_run _ _ _ _ _ _ _ _ Hf El) as (_ & (Hm & Ht & _) & _);
    simpl in Hm, Ht.
  - inversion H; subst. auto.
  - destruct (play_epilogue_facts _ _ _ _ _ _ H) as (_ & (Hm' & Ht' & _) & _).
    split; congruence.
  - destruct (play_epilogue_facts _ _ _ _ _ _ H) as (_ & (Hm' & Ht' & _) & _).
    simpl in Hm', Ht'. split; congruence.
Qed.

(** X6.  The requests of a game: first the tool-enabled rounds, at most
    [max_tries] of them and all with the schema [g_tools], then at most
    one request with no tools, which is the last one; there is always at
    least one request, and so at most [max_tries + 1]. *)
Theorem play_request_pattern (w0 : world) :
  exists evs n final,
    trace (snd (play w0)) = (trace w0 ++ evs)%list /\
    request_tools evs = (repeat g_tools n ++ final)%list /\
    (final = [] \/ final = [[]]) /\
    Z.of_nat n <= Z.max 0 (max_tries w0) /\
    (1 <= requests evs)%nat /\
    Z.of_nat (requests evs) <= Z.max 0 (max_tries w0) + 1.
Proof.
  destruct (play w0) as [r wf] eqn:E.
  destruct (play_shape _ _ _ E) as (evs & n & final & ms & Htr & Hrt & Hfin & Hn & Hone & _).
  exists evs, n, final. simpl.
  assert (Hlen : requests evs = (n + List.length final)%nat).
  { rewrite <- request_tools_length, Hrt, List.length_app, repeat_length. reflexivity. }
  assert (Hfl : (List.length final <= 1)%nat)
    by (destruct Hfin as [-> | ->]; simpl; lia).
  repeat split; auto; lia.
Qed.

Lemma answers_tool_traffic (done : list tool_call) (turns : list message) :
  Forall2 answers done turns -> other_turns turns = [].
Proof.
  induction 1 as [|tc m done turns (g & v & _ & _ & ->) _ IH]; simpl; auto.
Qed.

(** A request appends tool traffic only. *)
Lemma call_llm_traffic (tools : list pyvalue) (w : world) (r : result unit) (w' : world) :
  call_llm tools w = (r, w') ->
  exists block, messages w' = (messages w ++ block)%list /\ other_turns block = [].
Proof.
  intros H.
  destruct (client (requests (trace w)) (model w) (messages w) tools) as [e|rm] eqn:E.
  - rewrite (call_llm_raised _ _ _ _ _ _ E) in H. inversion H; subst.
    exists []. simpl. split; [now rewrite app_nil_r | reflexivity].
  - destruct (truthy (tool_calls rm)) eqn:Et.
    + rewrite (call_llm_tool_response _ _ _ _ _ _ E Et) in H.
      destruct (tool_calls rm) as [[|tc calls]|] eqn:Ec; try discriminate Et.
      destruct (process_tool_response_run _ _ _ _ _ _ _ Ec H)
        as (done & rest & turns & _ & Ha & Hms & _).
      eexists. split; [exact Hms|]. simpl.
      eapply answers_tool_traffic; eassumption.
    + rewrite (call_llm_plain_message _ _ _ _ _ _ E Et), process_message_run in H.
      inversion H; subst.
      exists []. simpl. split; [now rewrite app_nil_r | reflexivity].
Qed.

Lemma play_loop_traffic (fuel : nat) :
  forall (llm_try : Z) (w : world) (r : result loop_exit) (w' : world),
    play_loop fuel llm_try w = (r, w') ->
    exists ms, messages w' = (messages w ++ ms)%list /\ other_turns ms = [].
Proof.
  assert (Hnone : forall w : world,
             exists ms, messages w = (messages w ++ ms)%list /\ other_turns ms = []).
  { intros w. exists []. split; [now rewrite app_nil_r | reflexivity]. }
  induction fuel as [|fuel IH]; intros t w r w' H.
  - simpl in H. destruct (t <? max_tries w); inversion H; subst; apply Hnone.
  - destruct (Z.ltb_spec t (max_tries w)) as [Hlt|Hge].
    2:{ rewrite play_loop_finished in H by lia. inversion H; subst. apply Hnone. }
    destruct (call_llm g_tools w) as [[[]|e|] w1] eqn:Ec.
    + destruct (GameState_eqb_spec (state w1) END) as [Hs1|Hs1].
      * rewrite (play_loop_returned _ _ _ _ _ _ _ Hlt Ec Hs1) in H. inversion H; subst.
        eapply call_llm_traffic; eassumption.
      * rewrite (play_loop_step _ _ _ _ _ _ _ Hlt Ec Hs1) in H.
        destruct (call_llm_traffic _ _ _ _ Ec) as (ms1 & Hms1 & Ho1).
        destruct (IH _ _ _ _ H) as (ms2 & Hms2 & Ho2).
        exists (ms1 ++ ms2)%list. split.
        -- rewrite Hms2, Hms1, app_assoc. reflexivity.
        -- unfold other_turns in *. rewrite filter_app, Ho1, Ho2. reflexivity.
    + rewrite (play_loop_raised _ _ _ _ _ _ _ _ Hlt Ec) in H. inversion H; subst.
      eapply call_llm_traffic; eassumption.
    + destruct (call_llm_run _ _ _ _ _ _ _ Ec) as [Hno _]. contradiction.
Qed.

Lemma play_traffic (w0 : world) (r : result unit) (wf : world) :
  play w0 = (r, wf) ->
  exists ms,
    messages wf = (messages w0 ++ ms)%list /\
    (other_turns ms = [] \/ other_turns ms = [Turn "user" final_message]).
Proof.
  intros H.
  assert (Hep : forall w1 ms1,
             messages w1 = (messages w0 ++ ms1)%list -> other_turns ms1 = [] ->
             play_epilogue w1 = (r, wf) ->
             exists ms,
               messages wf = (messages w0 ++ ms)%list /\
               (other_turns ms = [] \/ other_turns ms = [Turn "user" final_message])).
  { intros w1 ms1 Hms1 Ho1 Hp. rewrite play_epilogue_run in Hp.
    destruct (call_llm_traffic _ _ _ _ Hp) as (ms2 & Hms2 & Ho2). simpl in Hms2.
    exists (ms1 ++ Turn "user" final_message :: ms2)%list. split.
    - rewrite Hms2, Hms1. repeat rewrite <- app_assoc. reflexivity.
    - right. unfold other_turns in *. rewrite filter_app, Ho1. simpl.
      rewrite Ho2. reflexivity. }
  destruct (play_cases app_random_number json_loads client w0)
    as [(w1 & El & Ep) | [(w1 & El & Ep) | (e & w1 & El & Ep)]];
    rewrite Ep in H;
    destruct (play_loop_traffic _ _ _ _ _ El) as (ms & Hms & Ho); simpl in Hms.
  - inversion H; subst. exists ms. auto.
  - eapply Hep; eassumption.
  - eapply (Hep (caught e w1)); eassumption.
Qed.

(** X7.  What [play] keeps in a run in which every [print] succeeds: it
    terminates, it leaves the state [END], it changes neither the model
    nor [max_tries], and the transcript only grows.  Every turn it
    appends is an assistant turn with at least one tool invocation or a
    tool-result turn, except the final user message, which is appended
    at most once: a reply without tool invocations is never recorded. *)
Theorem play_keeps (w0 : world) :
  let r := fst (play w0) in
  let wf := snd (play w0) in
  prints_succeed json_loads wf = true ->
  r <> OutOfFuel /\
  state wf = END /\
  model wf = model w0 /\
  max_tries wf = max_tries w0 /\
  exists ms,
    messages wf = (messages w0 ++ ms)%list /\
    (other_turns ms = [] \/ other_turns ms = [Turn "user" final_message]).
Proof.
  destruct (play w0) as [r wf] eqn:E. simpl. intros _.
  destruct (play_rounds_bound _ _ _ _ _ _ E) as (Hr & Hs & _).
  destruct (play_configuration _ _ _ E) as [Hm Ht].
  destruct (play_traffic _ _ _ E) as (ms & Hms & Ho).
  repeat split; auto. exists ms. auto.
Qed.

(** X8.  In a run in which every [print] succeeds, an exception leaves
    [play] only from its final request: the game has been ended and the
    final message appended, and either the provider failed on that
    request or it answered with tool invocations whose processing
    raised.  No exception of a guessing round leaves [play], and a final
    reply without tool invocations does not raise. *)
Theorem play_raises_only_from_final_request (w0 : world) (e : exn) (wf : world) :
  play w0 = (Raised e, wf) ->
  prints_succeed json_loads wf = true ->
  exists w1,
    let wl := lost w1 in
    state wl = END /\
    call_llm [] wl = (Raised e, wf) /\
    (client (requests (trace wl)) (model wl) (messages wl) [] = inl e
     \/ exists rm,
          client (requests (trace wl)) (model wl) (messages wl) [] = inr rm /\
          truthy (tool_calls rm) = true /\
          process_tool_response rm (sent [] wl) = (Raised e, wf)).
Proof.
  intros H _.
  assert (Hep : forall w1, play_epilogue w1 = (Raised e, wf) ->
                exists w1, let wl := lost w1 in
                  state wl = END /\ call_llm [] wl = (Raised e, wf) /\
                  (client (requests (trace wl)) (model wl) (messages wl) [] = inl e
                   \/ exists rm,
                        client (requests (trace wl)) (model wl) (messages wl) [] = inr rm /\
                        truthy (tool_calls rm) = true /\
                        process_tool_response rm (sent [] wl) = (Raised e, wf))).
  { intros w1 H1. exists w1. intros wl. rewrite play_epilogue_run in H1. fold wl in H1.
    split; [reflexivity|]. split; [exact H1|].
    destruct (client (requests (trace wl)) (model wl) (messages wl) []) as [e0|rm] eqn:Ec.
    - rewrite (call_llm_raised _ _ _ _ _ _ Ec) in H1. inversion H1; subst. now left.
    - right. exists rm. split; [reflexivity|].
      destruct (truthy (tool_calls rm)) eqn:Et.
      + rewrite (call_llm_tool_response _ _ _ _ _ _ Ec Et) in H1. auto.
      + rewrite (call_llm_plain_message _ _ _ _ _ _ Ec Et), process_message_run in H1.
        simpl in H1. discriminate H1. }
  destruct (play_cases app_random_number json_loads client w0)
    as [(w1 & El & Ep) | [(w1 & El & Ep) | (e1 & w1 & El & Ep)]];
    rewrite Ep in H.
  - discriminate H.
  - eapply Hep; eassumption.
  - eapply Hep; eassumption.
Qed.


(** *** What the provider is sent *)

Lemma request_transcripts_app (t1 t2 : list event) :
  request_transcripts (t1 ++ t2) =
    (request_transcripts t1 ++ request_transcripts t2)%list.
Proof.
  induction t1 as [|e t1 IH]; simpl; [reflexivity|].
  destruct e; simpl; rewrite IH; reflexivity.
Qed.

Lemma request_transcripts_quiet (t : list event) :
  requests t = 0%nat -> request_transcripts t = [].
Proof.
  induction t as [|e t IH]; simpl; [reflexivity|].
  destruct e; simpl; auto. discriminate.
Qed.

Lemma whole_history_call (tools : list pyvalue) (w : world) (r : result unit) (w' : world) :
  call_llm tools w = (r, w') ->
  exists evs,
    trace w' = (trace w ++ evs)%list /\
    whole_history w w' (request_transcripts evs).
Proof.
  intros H.
  destruct (call_llm_requests _ _ _ _ _ _ _ H) as (evs & Htr & Hq).
  destruct (call_llm_evolves _ _ _ _ _ _ _ H) as (_ & _ & _ & [ms Hms] & _).
  eexists. split; [exact Htr|].
  simpl. rewrite (request_transcripts_quiet _ Hq).
  constructor; [|constructor]. simpl. split; [reflexivity|].
  exists [], ms. rewrite app_nil_r. auto.
Qed.

Lemma whole_history_widen (w1 w2 w3 w4 : world) (sent : list (string * list message)) :
  model w2 = model w1 ->
  (exists ms, messages w2 = (messages w1 ++ ms)%list) ->
  (exists ms, messages w4 = (messages w3 ++ ms)%list) ->
  whole_history w2 w3 sent -> whole_history w1 w4 sent.
Proof.
  intros Hm [ms12 H12] [ms34 H34] H. unfold whole_history in *.
  eapply Forall_impl; [|exact H].
  intros [m ms] (Hmodel & before & after & Hb & Ha). simpl in *.
  split; [congruence|].
  exists (ms12 ++ before)%list, (after ++ ms34)%list.
  split.
  - rewrite Hb, H12, app_assoc. reflexivity.
  - rewrite H34, Ha, app_assoc. reflexivity.
Qed.

Lemma whole_history_loop (fuel : nat) :
  forall (llm_try : Z) (w : world) (r : result loop_exit) (w' : world),
    play_loop fuel llm_try w = (r, w') ->
    exists evs,
      trace w' = (trace w ++ evs)%list /\
      model w' = model w /\
      (exists ms, messages w' = (messages w ++ ms)%list) /\
      whole_history w w' (request_transcripts evs).
Proof.
  assert (Hnone : forall w, exists evs,
             trace w = (trace w ++ evs)%list /\ model w = model w /\
             (exists ms, messages w = (messages w ++ ms)%list) /\
             whole_history w w (request_transcripts evs)).
  { intros w. exists []. rewrite app_nil_r. repeat split; auto.
    - exists []. now rewrite app_nil_r.
    - constructor. }
  assert (Hone : forall w r w1, call_llm g_tools w = (r, w1) -> exists evs,
             trace w1 = (trace w ++ evs)%list /\ model w1 = model w /\
             (exists ms, messages w1 = (messages w ++ ms)%list) /\
             whole_history w w1 (request_transcripts evs)).
  { intros w r w1 Ec.
    destruct (whole_history_call _ _ _ _ Ec) as (evs & Htr & Hh).
    destruct (call_llm_evolves _ _ _ _ _ _ _ Ec) as (Hm & _ & _ & Hms & _).
    exists evs. auto. }
  induction fuel as [|fuel IH]; intros t w r w' H.
  - simpl in H. destruct (t <? max_tries w); inversion H; subst; apply Hnone.
  - destruct (Z.ltb_spec t (max_tries w)) as [Hlt|Hge].
    2:{ rewrite play_loop_finished in H by lia. inversion H; subst. apply Hnone. }
    destruct (call_llm g_tools w) as [[[]|e|] w1] eqn:Ec.
    + destruct (GameState_eqb_spec (state w1) END) as [Hs1|Hs1].
      * rewrite (play_loop_returned _ _ _ _ _ _ _ Hlt Ec Hs1) in H. inversion H; subst.
        eapply Hone; eassumption.
      * rewrite (play_loop_step _ _ _ _ _ _ _ Hlt Ec Hs1) in H.
        destruct (Hone _ _ _ Ec) as (evs1 & Htr1 & Hm1 & Hms1 & Hh1).
        destruct (IH _ _ _ _ H) as (evs2 & Htr2 & Hm2 & Hms2 & Hh2).
        exists (evs1 ++ evs2)%list.
        split; [rewrite Htr2, Htr1, app_assoc; reflexivity|].
        split; [congruence|].
        split.
        { destruct Hms1 as [a Ha]. destruct Hms2 as [b Hb]. exists (a ++ b)%list.
          rewrite Hb, Ha, app_assoc. reflexivity. }
        rewrite request_transcripts_app. apply Forall_app. split.
        -- eapply whole_history_widen; [reflexivity | | exact Hms2 | exact Hh1].
           exists []. now rewrite app_nil_r.
        -- eapply whole_history_widen; [exact Hm1 | exact Hms1 | | exact Hh2].
           exists []. now rewrite app_nil_r.
    + rewrite (play_loop_raised _ _ _ _ _ _ _ _ Hlt Ec) in H. inversion H; subst.
      eapply Hone; eassumption.
    + destruct (call_llm_run _ _ _ _ _ _ _ Ec) as [Hno _]. contradiction.
Qed.

(** X10.  Every request of a game is sent with the model of the agent
    and with the whole transcript as it is at that moment: it extends
    the transcript the game started from and is a prefix of the
    transcript the game ends with. *)
Theorem requests_carry_the_whole_history (w0 : world) :
  let wf := snd (play w0) in
  exists evs,
    trace wf = (trace w0 ++ evs)%list /\
    Forall
      (fun request =>
         fst request = model w0 /\
         exists before after,
           snd request = (messages w0 ++ before)%list /\
           messages wf = (snd request ++ after)%list)
      (request_transcripts evs).
Proof.
  destruct (play w0) as [r wf] eqn:E. simpl.
  assert (Hep : forall w1 evs1,
             trace w1 = (trace w0 ++ evs1)%list ->
             model w1 = model w0 ->
             (exists ms, messages w1 = (messages w0 ++ ms)%list) ->
             requests evs1 = 0%nat \/
               (exists evs0 evs2 w2,
                   evs1 = (evs0 ++ evs2)%list /\ requests evs2 = 0%nat /\
                   model w2 = model w1 /\ messages w2 = messages w1 /\
                   whole_history (with_state PLAYING w0) w2 (request_transcripts evs0)) ->
             play_epilogue w1 = (r, wf) ->
             exists evs,
               trace wf = (trace w0 ++ evs)%list /\
               whole_history w0 wf (request_transcripts evs)).
  { intros w1 evs1 Htr1 Hm1 Hms1 Hh1 Hp. rewrite play_epilogue_run in Hp.
    destruct (whole_history_call _ _ _ _ Hp) as (evs2 & Htr2 & Hh2).
    destruct (call_llm_evolves _ _ _ _ _ _ _ Hp) as (_ & _ & _ & Hms2 & _).
    exists (evs1 ++ Said final_message :: evs2)%list.
    split.
    { rewrite Htr2. simpl. rewrite Htr1. repeat rewrite <- app_assoc. reflexivity. }
    rewrite request_transcripts_app. simpl. apply Forall_app. split.
    - destruct Hh1 as [Hq | (evs0 & evs3 & w2 & -> & Hq & Hm2 & Hmsg2 & Hh)].
      + rewrite (request_transcripts_quiet _ Hq). constructor.
      + rewrite request_transcripts_app, (request_transcripts_quiet _ Hq), app_nil_r.
        eapply whole_history_widen; [reflexivity | | | exact Hh].
        * exists []. now rewrite app_nil_r.
        * destruct Hms2 as [b Hb]. simpl in Hb. rewrite Hmsg2.
          exists ([Turn "user" final_message] ++ b)%list.
          rewrite Hb, app_assoc. reflexivity.
    - eapply whole_history_widen; [| | | exact Hh2].
      + simpl. exact Hm1.
      + simpl. destruct Hms1 as [a Ha]. exists (a ++ [Turn "user" final_message])%list.
        rewrite Ha, app_assoc. reflexivity.
      + exists []. now rewrite app_nil_r. }
  destruct (play_cases app_random_number json_loads client w0)
    as [(w1 & El & Ep) | [(w1 & El & Ep) | (e & w1 & El & Ep)]];
    rewrite Ep in E;
    destruct (whole_history_loop _ _ _ _ _ El) as (evs & Htr & Hm & Hms & Hh);
    simpl in Htr, Hm, Hms.
  - inversion E; subst. exists evs. split; [exact Htr | exact Hh].
  - eapply (Hep w1 evs); auto.
    right. exists evs, [], w1. rewrite app_nil_r. repeat split; auto.
  - eapply (Hep (caught e w1) (evs ++ [SaidError e])%list); auto.
    + simpl. rewrite Htr, app_assoc. reflexivity.
    + right. exists evs, [SaidError e], w1. repeat split; auto.
Qed.

End Coverage.

Section EntryFacts.

Variable app_random_number : Z.
Variable json_loads : string -> exn + pyvalue.
Variable environ_get_key : option string.
Variable OpenAI : string -> provider.

(** X11.  [main] plays no game exactly when the key is unset or empty, or
    the connectivity check raises; it then prints one line and builds no
    agent.  When it plays a game it prints nothing of its own. *)
Theorem main_without_game :
  let run := main app_random_number json_loads environ_get_key OpenAI in
  (snd run = None <->
     falsy_key environ_get_key = true \/
     exists key e, environ_get_key = Some key /\ models_list (OpenAI key) = inl e) /\
  List.length (fst run) = match snd run with None => 1%nat | Some _ => 0%nat end.
Proof.
  unfold main. rewrite new_agent.
  destruct environ_get_key as [key|]; simpl.
  - destruct (key =? EmptyString)%string eqn:Ek; simpl.
    + split; [|reflexivity]. split; auto.
    + destruct (models_list (OpenAI key)) as [e|u] eqn:Em; simpl.
      * split; [|reflexivity]. split; auto. intros _. right. exists key, e. auto.
      * split; [|reflexivity]. split; [discriminate|].
        intros [H | (k & e & Hk & He)]; [discriminate H|].
        inversion Hk; subst k. congruence.
  - split; [|reflexivity]. split; auto.
Qed.


End EntryFacts.

(** * Concrete runs *)



(** C3 is false as stated: with the secret 7, the first response carries
    the guess 7 and then invokes an unknown tool.  The guess is answered
    and the state set to [END], but the exception of the second
    invocation sends [play] to its epilogue: the final message is appended
    and a second request, with no tools, is sent. *)
Lemma correct_guess_then_exception_reaches_epilogue :
  let c := scripted right_then_unknown_script in
  let w0 := fresh_agent 2 in
  let run := play 7 sample_json_loads c w0 in
  at_attempt 7 sample_json_loads c w0 1 (with_state PLAYING w0) /\
  c 0%nat (model w0) (messages w0) g_tools =
    guesses [guess_call "call_1" "7"; unknown_call "call_2"] /\
  guess_of sample_json_loads (guess_call "call_1" "7") = Some (PInt 7) /\
  fst run = Normal tt /\
  messages (snd run) =
    (messages w0 ++
       [ AssistantTurn None
           [entry_of (guess_call "call_1" "7"); entry_of (unknown_call "call_2")];
         ToolTurn "call_1" "evaluate_your_try" (quoted THAT_IS_RIGHT_MESSAGE);
         Turn "user" (final_message 7) ])%list /\
  In (SaidError (KeyError "reveal_number")) (trace (snd run)) /\
  requests (trace (snd run)) = 2%nat /\
  tool_rounds (trace (snd run)) = 1%nat.
Proof.
  intros c w0 run. split; [apply first_attempt; reflexivity|].
  vm_compute. repeat split; auto 10.
Qed.

(** C3, as amended, on the winning game: secret 42, guesses 70, 10, 42. *)
Lemma correct_guess_ends_game_witness :
  let c := scripted winning_script in
  let w0 := fresh_agent 5 in
  let w3 := round 42 c (round 42 c (with_state PLAYING w0)) in
  let w' := round 42 c w3 in
  let calls := [guess_call "call_3" "42"] in
  state w' = END /\
  play 42 sample_json_loads c w0 = (Normal tt, w') /\
  requests (trace w') = (requests (trace w0) + 3)%nat /\
  tool_rounds (trace w') = (tool_rounds (trace w0) + 3)%nat /\
  exists turns,
    Forall2 (answers 42 sample_json_loads) calls turns /\
    messages w' = (messages w3 ++ AssistantTurn None (map entry_of calls) :: turns)%list.
Proof.
  intros c w0 w3 w' calls.
  apply (correct_guess_ends_game 42 sample_json_loads c w0 3 w3 w'
           {| content := None; tool_calls := Some calls |} calls
           (guess_call "call_3" "42") (PInt 42)).
  - apply next_attempt with (w := round 42 c (with_state PLAYING w0)).
    + apply next_attempt with (w := with_state PLAYING w0).
      * apply first_attempt. reflexivity.
      * vm_compute. reflexivity.
      * vm_compute. discriminate.
      * reflexivity.
    + vm_compute. reflexivity.
    + vm_compute. discriminate.
    + reflexivity.
  - vm_compute. reflexivity.
  - reflexivity.
  - left. reflexivity.
  - vm_compute. reflexivity.
  - reflexivity.
  - vm_compute. reflexivity.
Defined.

(** C4 is false as stated: the tool-result turn of the guess 70 for the
    secret 42 carries the too-high message between double quotes, which is
    none of the three messages. *)
Lemma tool_result_is_not_verbatim :
  let w := fresh_agent 5 in
  let rm := {| content := None; tool_calls := Some [guess_call "call_1" "70"] |} in
  let text := String Json.dquote ("Too high!" ++ String Json.dquote EmptyString) in
  messages (snd (process_tool_response 42 sample_json_loads rm w)) =
    (messages w ++
       [ AssistantTurn None [entry_of (guess_call "call_1" "70")];
         ToolTurn "call_1" "evaluate_your_try" text ])%list /\
  String.length text = 11%nat /\
  text <> TOO_HIGH_MESSAGE /\ text <> TOO_LOW_MESSAGE /\ text <> THAT_IS_RIGHT_MESSAGE.
Proof.
  vm_compute. repeat split; discriminate.
Qed.

(** C4, as amended, on the same response. *)
Lemma tool_result_is_serialized_message_witness :
  let w := fresh_agent 5 in
  let rm := {| content := None; tool_calls := Some [guess_call "call_1" "70"] |} in
  let run := process_tool_response 42 sample_json_loads rm w in
  exists ms,
    messages (snd run) = (messages w ++ ms)%list /\
    forall tool_call_id tool_name text,
      In (ToolTurn tool_call_id tool_name text) ms ->
      exists m,
        (m = TOO_HIGH_MESSAGE \/ m = TOO_LOW_MESSAGE \/ m = THAT_IS_RIGHT_MESSAGE) /\
        text = Json.dumps m /\
        text = quoted m.
Proof.
  intros w rm run.
  apply (tool_result_is_serialized_message 42 sample_json_loads rm w (fst run) (snd run)).
  apply surjective_pairing.
Defined.

(** C5 on a model that answers its second attempt in plain text, with
    five tries allowed. *)
Lemma plain_reply_ends_game_witness :
  let c := scripted chatty_script in
  let w0 := fresh_agent 5 in
  let w := round 7 c (with_state PLAYING w0) in
  let rm := {| content := Some "Is it 25?"; tool_calls := None |} in
  let run := play 7 sample_json_loads c w0 in
  fst run <> OutOfFuel /\
  state w = PLAYING /\
  (exists w',
      process_message rm (sent g_tools w) = (Raised protocol_violation, w') /\
      call_llm 7 sample_json_loads c g_tools w = (Raised protocol_violation, w') /\
      messages w' = messages w /\
      play_epilogue 7 sample_json_loads c (caught protocol_violation w') =
        (fst run, snd run)) /\
  In (SaidError protocol_violation) (trace (snd run)) /\
  state (snd run) = END /\
  tool_rounds (trace (snd run)) = (tool_rounds (trace w0) + 2)%nat.
Proof.
  intros c w0 w rm run.
  apply (plain_reply_ends_game 7 sample_json_loads c w0 2 w rm (fst run) (snd run)).
  - apply next_attempt with (w := with_state PLAYING w0).
    + apply first_attempt. reflexivity.
    + vm_compute. reflexivity.
    + vm_compute. discriminate.
    + reflexivity.
  - vm_compute. reflexivity.
  - reflexivity.
  - apply surjective_pairing.
Defined.



(** C7 is false as stated: the arguments of the only invocation of the
    first response are not JSON, so its dispatch raises; the assistant
    turn is followed by the final user turn, not by a tool-result turn. *)
Lemma assistant_turn_without_tool_result :
  let w0 := fresh_agent 2 in
  let run := play 7 sample_json_loads (scripted garbled_script) w0 in
  paired (messages w0) = true /\
  fst run = Normal tt /\
  messages (snd run) =
    (messages w0 ++
       [ AssistantTurn None [entry_of (garbled_call "call_1")];
         Turn "user" (final_message 7) ])%list /\
  paired (messages (snd run)) = false.
Proof.
  vm_compute. repeat split.
Qed.

(** C7, as amended, on a run with a protocol violation: the model
    guesses 50, then answers in plain text; the exception is caught and
    printed, and the transcript is paired all the same. *)
Lemma transcript_pairing_witness :
  let w0 := fresh_agent 2 in
  let run := play 7 sample_json_loads (scripted chatty_script) w0 in
  In (SaidError protocol_violation) (trace (snd run)) /\
  partly_paired (messages (snd run)) = true /\
  paired (messages (snd run)) = true.
Proof.
  intros w0 run.
  destruct (transcript_pairing 7 sample_json_loads (scripted chatty_script) w0
              (fst run) (snd run)) as [Hpart Hall].
  - apply surjective_pairing.
  - split; [vm_compute; auto 10|].
    split; [apply Hpart; reflexivity|].
    apply Hall; [reflexivity|].
    intros tools w rm Hreq Hc Ht.
    destruct Hreq as [k w Hat | w1 Hloop].
    + inversion Hat as [Hpos | k0 wa wb Hat0 Hcall Hne Hlt]; subst.
      * vm_compute in Hc. inversion Hc; subst rm. vm_compute. reflexivity.
      * inversion Hat0 as [Hpos | k1 wc wd Hat1 Hcall1 Hne1 Hlt1]; subst.
        -- vm_compute in Hcall. inversion Hcall; subst w.
           vm_compute in Hc. inversion Hc; subst rm. discriminate Ht.
        -- destruct k1 as [|k1]; [inversion Hat1|].
           exfalso. change (max_tries w0) with 2 in Hlt. lia.
    + vm_compute in Hloop. inversion Hloop; subst w1.
      vm_compute in Hc. inversion Hc; subst rm. discriminate Ht.
Defined.

(** C8 on the losing game: secret 7, two tries, guesses 50 and 90. *)
Lemma attempts_exhausted_epilogue_witness :
  let c := scripted losing_script in
  let w0 := fresh_agent 2 in
  let w1 := round 7 c (round 7 c (with_state PLAYING w0)) in
  let run := play 7 sample_json_loads c w0 in
  fst run <> OutOfFuel /\
  tool_rounds (trace w1) = (tool_rounds (trace w0) + Z.to_nat (max_tries w0))%nat /\
  state w1 = PLAYING /\
  state (snd run) = END /\
  (exists ms,
      messages (snd run) = (messages w1 ++ Turn "user" (final_message 7) :: ms)%list) /\
  (exists evs,
      trace (snd run) =
        (trace w1 ++
           Said (final_message 7) ::
           Create (model w1) (messages w1 ++ [Turn "user" (final_message 7)]) [] :: evs)%list /\
      requests evs = 0%nat) /\
  requests (trace (snd run)) = S (requests (trace w1)) /\
  tool_rounds (trace (snd run)) = tool_rounds (trace w1).
Proof.
  intros c w0 w1 run.
  apply (attempts_exhausted_epilogue 7 sample_json_loads c w0 w1 (fst run) (snd run)).
  - vm_compute. reflexivity.
  - apply surjective_pairing.
Defined.

(** C9 is false as stated: after the right guess, the second invocation
    has arguments that are not JSON; its dispatch raises, so neither it
    nor the third invocation gets a tool-result turn. *)
Lemma later_invocation_not_answered :
  let w := fresh_agent 5 in
  let run := process_tool_response 7 sample_json_loads right_then_garbled w in
  fst run = Raised (OtherException "JSONDecodeError" "guess=50") /\
  state (snd run) = END /\
  messages (snd run) =
    (messages w ++
       [ AssistantTurn None
           [ entry_of (guess_call "call_1" "7"); entry_of (garbled_call "call_2");
             entry_of (guess_call "call_3" "50") ];
         ToolTurn "call_1" "evaluate_your_try" (quoted THAT_IS_RIGHT_MESSAGE) ])%list.
Proof.
  vm_compute. repeat split.
Qed.

(** C9, as amended, on the right guess followed by the guess 50. *)
Lemma later_invocations_still_answered_witness :
  let w := fresh_agent 5 in
  let w' := snd (process_tool_response 7 sample_json_loads right_then_wrong w) in
  let tc := guess_call "call_1" "7" in
  let later := [guess_call "call_2" "50"] in
  state w' = END /\
  exists turns_earlier turn turns_later,
    Forall2 (answers 7 sample_json_loads) [] turns_earlier /\
    turn = tool_turn tc THAT_IS_RIGHT_MESSAGE /\
    Forall2 (answers 7 sample_json_loads) later turns_later /\
    messages w' =
      (messages w ++
         AssistantTurn None (map entry_of ([] ++ tc :: later)) ::
         turns_earlier ++ turn :: turns_later)%list.
Proof.
  intros w w' tc later.
  apply (later_invocations_still_answered 7 sample_json_loads right_then_wrong
           [] later tc (PInt 7) w w').
  - reflexivity.
  - vm_compute. reflexivity.
  - reflexivity.
  - vm_compute. reflexivity.
Defined.


(** The user turn appended on that run, in full. *)
Lemma exception_run_reveals_seven :
  In (Turn "user"
        "ME: You lost! My number was 7. How is it possible when you are the fortune teller?")
     (messages (snd (play 7 sample_json_loads (scripted chatty_script) (fresh_agent 5)))).
Proof.
  vm_compute. auto 10.
Qed.

(** * Concrete runs for the further properties *)

(** X1 on the guess "fifty", given as text. *)
Lemma evaluate_your_try_numbers_only_witness :
  let w := fresh_agent 5 in
  exists msg,
    evaluate_your_try 42 (PStr "fifty") w =
      (Raised (TypeError msg), with_trace (trace w ++ [SaidGuess (PStr "fifty")]) w).
Proof.
  intros w.
  apply (evaluate_your_try_numbers_only 42 (PStr "fifty") w).
  reflexivity.
Defined.

(** X4 on an invocation of an unknown tool with readable arguments. *)
Lemma dispatch_exception_precedence_witness :
  let w := fresh_agent 5 in
  dispatch 7 sample_json_loads (unknown_call "call_2") w =
    (Raised (KeyError "reveal_number"), w).
Proof.
  intros w.
  exact (dispatch_exception_precedence 7 sample_json_loads (unknown_call "call_2") w).
Defined.

(** X7 on the losing game: secret 7, two tries, guesses 50 and 90. *)
Lemma play_keeps_witness :
  let w0 := fresh_agent 2 in
  let run := play 7 sample_json_loads (scripted losing_script) w0 in
  fst run <> OutOfFuel /\
  state (snd run) = END /\
  model (snd run) = model w0 /\
  max_tries (snd run) = max_tries w0 /\
  exists ms,
    messages (snd run) = (messages w0 ++ ms)%list /\
    (other_turns ms = [] \/ other_turns ms = [Turn "user" (final_message 7)]).
Proof.
  intros w0 run.
  apply (play_keeps 7 sample_json_loads (scripted losing_script) w0).
  vm_compute. reflexivity.
Defined.

(** X5 on the response with the right guess, unreadable arguments and a
    third guess. *)
Lemma tool_response_transcript_witness :
  let w := fresh_agent 5 in
  let calls := [guess_call "call_1" "7"; garbled_call "call_2"; guess_call "call_3" "50"] in
  let run := process_tool_response 7 sample_json_loads right_then_garbled w in
  exists turns,
    messages (snd run) =
      (messages w ++
         AssistantTurn (content right_then_garbled) (map entry_of calls) :: turns)%list /\
    (List.length turns <= List.length calls)%nat /\
    (fst run = Normal tt -> List.length turns = List.length calls) /\
    forall m,
      In m turns ->
      exists tc text,
        In tc calls /\ m = ToolTurn (id tc) "evaluate_your_try" text.
Proof.
  intros w calls run.
  apply (tool_response_transcript 7 sample_json_loads right_then_garbled calls w).
  reflexivity.
Defined.

(** X8 on a provider that fails at every request. *)
Lemma play_raises_only_from_final_request_witness :
  let c := scripted [] in
  let e := OtherException "APIConnectionError" "Connection error." in
  let wf := snd (play 7 sample_json_loads c (fresh_agent 2)) in
  exists w1,
    let wl := lost 7 w1 in
    state wl = END /\
    call_llm 7 sample_json_loads c [] wl = (Raised e, wf) /\
    (c (requests (trace wl)) (model wl) (messages wl) [] = inl e
     \/ exists rm,
          c (requests (trace wl)) (model wl) (messages wl) [] = inr rm /\
          truthy (tool_calls rm) = true /\
          process_tool_response 7 sample_json_loads rm (sent [] wl) = (Raised e, wf)).
Proof.
  intros c e wf.
  apply (play_raises_only_from_final_request 7 sample_json_loads c (fresh_agent 2) e wf).
  - vm_compute. reflexivity.
  - vm_compute. reflexivity.
Defined.

